(** * Halley: a wallet ledger as Hyperledger Fabric chaincode

  A shallow embedding of the two chaincode programs of the repository,
  [coggia.go] (contract [SimpleChaincode], wallets [{address, balance}])
  and the Halley contract ([SmartContract], wallets [{id, balance, owner}]),
  together with the parts of their environment the handlers call:
  Go's [int] arithmetic, [strconv.Atoi]/[strconv.Itoa], the well-formed
  sequences of [unicode/utf8], [encoding/json] on the two [Wallet]
  structs, and the chaincode stub ([GetState], [PutState], [DelState],
  [GetStateByRange], [CreateCompositeKey]).

  Go strings and byte slices are [string] (a list of 8-bit characters);
  a handler is a function from the stub's state to a response and the
  stub's next state.  Writes to standard output ([fmt.Println]) are not
  modelled. *)

From Stdlib Require Import ZArith String Ascii List Lia.
From stdpp Require Import gmap strings list sorting.

Open Scope Z_scope.

(* Let [simpl] compute the concatenation of strings that start with known
 characters. *)
Arguments String.append !s1 s2 : simpl nomatch.

Set Warnings "-register-all".

(** ** Go's [int] (64 bits, two's complement, wrap-around) *)

Module GoInt.

Definition MaxInt : Z := 2 ^ 63 - 1.
Definition MinInt : Z := - 2 ^ 63.
Definition MaxUint64 : Z := 2 ^ 64 - 1.

(** The value an [int] holds after an operation whose exact result is [z]. *)
Definition wrap (z : Z) : Z := (z + 2 ^ 63) mod 2 ^ 64 - 2 ^ 63.

Definition add (a b : Z) : Z := wrap (a + b).
Definition sub (a b : Z) : Z := wrap (a - b).

Definition in_range (z : Z) : Prop := MinInt <= z <= MaxInt.

End GoInt.

(** ** Characters and strings with quotes *)

Module Chars.

Definition dquote : ascii := "034"%char.
Definition backslash : ascii := "092"%char.
Definition NUL : ascii := "000"%char.

Definition code (c : ascii) : Z := Z.of_N (N_of_ascii c).
Definition char_of (z : Z) : ascii := ascii_of_N (Z.to_N z).

Definition is_digit (c : ascii) : bool := (48 <=? code c) && (code c <=? 57).
Definition is_upper (c : ascii) : bool := (65 <=? code c) && (code c <=? 90).

(** ASCII lower-casing, for case-insensitive comparison of field names. *)
Definition to_lower (c : ascii) : ascii :=
  if is_upper c then char_of (code c + 32) else c.

Fixpoint lower (s : string) : string :=
  match s with
  | EmptyString => EmptyString
  | String c r => String (to_lower c) (lower r)
  end.

(** [q s] is [s] between two double quotes. *)
Definition q (s : string) : string :=
  String dquote (s ++ String dquote EmptyString).

End Chars.

(** ** [strconv] *)

Module Strconv.
Import Chars.

Inductive NumError := ErrSyntax | ErrRange.

(** The loop of [strconv.ParseUint(s, 10, 64)]: a character that is not a
    decimal digit is a syntax error; a value above [MaxUint64] is a range
    error, returned at the digit where it occurs. *)
Fixpoint parse_uint_loop (s : string) (n : Z) : Z * option NumError :=
  match s with
  | EmptyString => (n, None)
  | String d r =>
      if is_digit d then
        let n1 := n * 10 + (code d - 48) in
        if GoInt.MaxUint64 <? n1 then (GoInt.MaxUint64, Some ErrRange)
        else parse_uint_loop r n1
      else (0, Some ErrSyntax)
  end.

Definition ParseUint (s : string) : Z * option NumError :=
  match s with
  | EmptyString => (0, Some ErrSyntax)
  | _ => parse_uint_loop s 0
  end.

(** [strconv.ParseInt(s, 10, 64)]. *)
Definition ParseInt (s : string) : Z * option NumError :=
  match s with
  | EmptyString => (0, Some ErrSyntax)
  | String c r =>
      let neg := Ascii.eqb c "-" in
      let s1 := if Ascii.eqb c "+" then r else if neg then r else s in
      match ParseUint s1 with
      | (_, Some ErrSyntax) => (0, Some ErrSyntax)
      | (un, _) =>
          if negb neg && (2 ^ 63 <=? un) then (GoInt.MaxInt, Some ErrRange)
          else if neg && (2 ^ 63 <? un) then (GoInt.MinInt, Some ErrRange)
          else (if neg then GoInt.wrap (- un) else un, None)
      end
  end.

(** [strconv.Atoi]: on a 64-bit platform its results are those of
    [ParseInt(s, 10, 64)]. *)
Definition Atoi (s : string) : Z * option NumError := ParseInt s.

Fixpoint format_digits (fuel : nat) (n : Z) (acc : string) : string :=
  match fuel with
  | O => acc
  | S f =>
      let acc' := String (char_of (48 + n mod 10)) acc in
      if n <? 10 then acc' else format_digits f (n / 10) acc'
  end.

Definition FormatUint (n : Z) : string :=
  format_digits (S (Z.to_nat (Z.log2 n))) n EmptyString.

(** [strconv.Itoa]. *)
Definition Itoa (i : Z) : string :=
  if i <? 0 then String "-" (FormatUint (- i)) else FormatUint i.

(** Whether a string holds decimal digits only. *)
Fixpoint all_digits (s : string) : bool :=
  match s with
  | EmptyString => true
  | String c r => is_digit c && all_digits r
  end.

End Strconv.

(** ** [unicode/utf8], as far as validation and decoding need it *)

Module Utf8.
Import Chars.

Definition between (lo hi : Z) (c : ascii) : bool :=
  (lo <=? code c) && (code c <=? hi).

(** The well-formed sequences of two, three and four bytes: a leading byte
    and continuation bytes in the ranges of the package's table (no
    overlong forms, no surrogates, nothing above U+10FFFF). *)
Definition seq2 (c c1 : ascii) : bool :=
  between 194 223 c && between 128 191 c1.

Definition seq3 (c c1 c2 : ascii) : bool :=
  between 224 239 c
  && between (if code c =? 224 then 160 else 128)
             (if code c =? 237 then 159 else 191) c1
  && between 128 191 c2.

Definition seq4 (c c1 c2 c3 : ascii) : bool :=
  between 240 244 c
  && between (if code c =? 240 then 144 else 128)
             (if code c =? 244 then 143 else 191) c1
  && between 128 191 c2 && between 128 191 c3.

(** The width [utf8.DecodeRune] finds for the sequence that starts with
    the byte [c] (not an ASCII byte) followed by [r]: 2, 3 or 4, and 0
    where the package returns [RuneError] with width 1, the sequence being
    ill-formed or cut short. *)
Definition sequence (c : ascii) (r : string) : nat :=
  match r with
  | String c1 r1 =>
      if seq2 c c1 then 2%nat
      else
        match r1 with
        | String c2 r2 =>
            if seq3 c c1 c2 then 3%nat
            else
              match r2 with
              | String c3 _ => if seq4 c c1 c2 c3 then 4%nat else 0%nat
              | EmptyString => 0%nat
              end
        | EmptyString => 0%nat
        end
  | EmptyString => 0%nat
  end.

(** [utf8.ValidString]. *)
Fixpoint ValidString (s : string) : bool :=
  match s with
  | EmptyString => true
  | String c r =>
      if code c <? 128 then ValidString r
      else
        match sequence c r, r with
        | 2%nat, String _ r1 => ValidString r1
        | 3%nat, String _ (String _ r2) => ValidString r2
        | 4%nat, String _ (String _ (String _ r3)) => ValidString r3
        | _, _ => false
        end
  end.

End Utf8.

(** ** [encoding/json], as far as the [Wallet] structs use it

  Texts are parsed to a syntax tree of JSON values.  A Go struct is seen
  the way the package sees it through reflection: a list of fields, each
  with its Go name, its JSON name (the [json:] tag) and its value; only
  exported fields (Go name starting with an upper-case letter) are
  encoded or decoded.

  Inside strings, well-formed UTF-8 is copied through in both directions,
  except that U+2028 and U+2029 are written as escapes; every byte of an
  ill-formed sequence is written as the escape of U+FFFD, and read as
  U+FFFD.  The field names of the two structs are ASCII. *)

Module Json.
Import Chars Strconv.

Inductive value :=
| JNull
| JBool (b : bool)
| JNum (lit : string)
| JStr (s : string)
| JArr (l : list value)
| JObj (m : list (string * value)).

(** *** Encoding *)

Definition hex_digit (n : Z) : ascii :=
  if n <? 10 then char_of (48 + n) else char_of (87 + n).

(** One ASCII byte of a string, as [encodeState.string] writes it (HTML
    escaping on, as [json.Marshal] sets it): the control characters other
    than line feed, carriage return and tab are written with [\u00]. *)
Definition escape_char (c : ascii) : string :=
  if Ascii.eqb c dquote || Ascii.eqb c backslash then
    String backslash (String c EmptyString)
  else if Ascii.eqb c "010" then String backslash "n"
  else if Ascii.eqb c "013" then String backslash "r"
  else if Ascii.eqb c "009" then String backslash "t"
  else if (code c <? 32) || Ascii.eqb c "<" || Ascii.eqb c ">"
          || Ascii.eqb c "&" then
    String backslash
      (String "u" (String "0" (String "0"
        (String (hex_digit (code c / 16))
          (String (hex_digit (code c mod 16)) EmptyString)))))
  else String c EmptyString.

(** The last hexadecimal digit of U+2028 or U+2029, for the three bytes
    of one of these two. *)
Definition line_separator (c c1 c2 : ascii) : option ascii :=
  if Ascii.eqb c "226" && Ascii.eqb c1 "128" then
    if Ascii.eqb c2 "168" then Some "8"%char
    else if Ascii.eqb c2 "169" then Some "9"%char
    else None
  else None.

(** The escape of U+FFFD, written for a byte that starts no well-formed
    sequence. *)
Definition escaped_replacement : string :=
  String backslash "ufffd".

(** The bytes of a string between the quotes: ASCII bytes by
    [escape_char]; other well-formed sequences as they are, but U+2028 and
    U+2029 escaped; an ill-formed byte as the escape of U+FFFD, the text
    going on at the next byte. *)
Fixpoint escape (s : string) : string :=
  match s with
  | EmptyString => EmptyString
  | String c r =>
      if code c <? 128 then escape_char c +:+ escape r
      else
        match Utf8.sequence c r, r with
        | 2%nat, String c1 r1 => String c (String c1 (escape r1))
        | 3%nat, String c1 (String c2 r2) =>
            match line_separator c c1 c2 with
            | Some d => String backslash (String "u" (String "2" (String "0"
                          (String "2" (String d (escape r2))))))
            | None => String c (String c1 (String c2 (escape r2)))
            end
        | 4%nat, String c1 (String c2 (String c3 r3)) =>
            String c (String c1 (String c2 (String c3 (escape r3))))
        | _, _ => escaped_replacement +:+ escape r
        end
  end.

Definition quote (s : string) : string := q (escape s).

Inductive GoVal := VString (s : string) | VInt (i : Z).

Record Field := mkField { go_name : string; json_name : string; fval : GoVal }.

Definition exported (f : Field) : bool :=
  match go_name f with
  | String c _ => is_upper c
  | EmptyString => false
  end.

Definition encode_val (v : GoVal) : string :=
  match v with
  | VString s => quote s
  | VInt i => Itoa i
  end.

Definition encode_field (f : Field) : string :=
  quote (json_name f) +:+ ":" +:+ encode_val (fval f).

Fixpoint join_comma (l : list string) : string :=
  match l with
  | [] => EmptyString
  | [x] => x
  | x :: r => x +:+ "," +:+ join_comma r
  end.

(** [json.Marshal] of a struct of string and int fields; it has no failing
    case, the error it returns is always [nil]. *)
Definition Marshal (st : list Field) : string * option string :=
  ("{" +:+ join_comma (map encode_field (List.filter exported st)) +:+ "}",
   None).

(** *** Parsing *)

Definition is_ws (c : ascii) : bool :=
  Ascii.eqb c " " || Ascii.eqb c "009" || Ascii.eqb c "010"
  || Ascii.eqb c "013".

Fixpoint skip_ws (s : string) : string :=
  match s with
  | String c r => if is_ws c then skip_ws r else s
  | EmptyString => EmptyString
  end.

Definition hex_val (c : ascii) : option Z :=
  let n := code c in
  if (48 <=? n) && (n <=? 57) then Some (n - 48)
  else if (97 <=? n) && (n <=? 102) then Some (n - 87)
  else if (65 <=? n) && (n <=? 70) then Some (n - 55)
  else None.

Definition getu4 (h1 h2 h3 h4 : ascii) : option Z :=
  match hex_val h1, hex_val h2, hex_val h3, hex_val h4 with
  | Some a, Some b, Some c, Some d => Some (((a * 16 + b) * 16 + c) * 16 + d)
  | _, _, _, _ => None
  end.

Definition is_surrogate (r : Z) : bool := (55296 <=? r) && (r <? 57344).

(** [utf16.DecodeRune]: the code point of a surrogate pair, if it is one. *)
Definition decode_pair (r1 r2 : Z) : option Z :=
  if (55296 <=? r1) && (r1 <? 56320) && (56320 <=? r2) && (r2 <? 57344)
  then Some ((r1 - 55296) * 1024 + (r2 - 56320) + 65536)
  else None.

(** [utf8.EncodeRune]. *)
Definition encode_rune (r : Z) : string :=
  if r <? 128 then String (char_of r) EmptyString
  else if r <? 2048 then
    String (char_of (192 + r / 64))
      (String (char_of (128 + r mod 64)) EmptyString)
  else if is_surrogate r then
    String "239" (String "191" (String "189" EmptyString))
  else if r <? 65536 then
    String (char_of (224 + r / 4096))
      (String (char_of (128 + (r / 64) mod 64))
        (String (char_of (128 + r mod 64)) EmptyString))
  else
    String (char_of (240 + r / 262144))
      (String (char_of (128 + (r / 4096) mod 64))
        (String (char_of (128 + (r / 64) mod 64))
          (String (char_of (128 + r mod 64)) EmptyString))).

Definition replacement : string :=
  String "239" (String "191" (String "189" EmptyString)).

Definition simple_escape (e : ascii) : option ascii :=
  if Ascii.eqb e dquote then Some dquote
  else if Ascii.eqb e backslash then Some backslash
  else if Ascii.eqb e "/" then Some "/"%char
  else if Ascii.eqb e "b" then Some "008"%char
  else if Ascii.eqb e "f" then Some "012"%char
  else if Ascii.eqb e "n" then Some "010"%char
  else if Ascii.eqb e "r" then Some "013"%char
  else if Ascii.eqb e "t" then Some "009"%char
  else None.

Definition prepend (p : string) (o : option (string * string))
  : option (string * string) :=
  match o with
  | Some (s, rest) => Some (p +:+ s, rest)
  | None => None
  end.

(** The body of a string literal, after its opening quote: the decoded
    string and the text after the closing quote.  Bytes outside ASCII are
    coerced to well-formed UTF-8: a well-formed sequence is kept, any
    other byte becomes U+FFFD. *)
Fixpoint scan_string (s : string) : option (string * string) :=
  match s with
  | EmptyString => None
  | String c r =>
      if Ascii.eqb c dquote then Some (EmptyString, r)
      else if Ascii.eqb c backslash then
        match r with
        | EmptyString => None
        | String e r1 =>
            if Ascii.eqb e "u" then
              match r1 with
              | String h1 (String h2 (String h3 (String h4 r2))) =>
                  match getu4 h1 h2 h3 h4 with
                  | None => None
                  | Some rr =>
                      if is_surrogate rr then
                        match r2 with
                        | String b (String u (String g1 (String g2
                            (String g3 (String g4 r3))))) =>
                            match (if Ascii.eqb b backslash && Ascii.eqb u "u"
                                   then getu4 g1 g2 g3 g4 else None) with
                            | Some rr1 =>
                                match decode_pair rr rr1 with
                                | Some dec =>
                                    prepend (encode_rune dec) (scan_string r3)
                                | None => prepend replacement (scan_string r2)
                                end
                            | None => prepend replacement (scan_string r2)
                            end
                        | _ => prepend replacement (scan_string r2)
                        end
                      else prepend (encode_rune rr) (scan_string r2)
                  end
              | _ => None
              end
            else
              match simple_escape e with
              | Some ch => prepend (String ch EmptyString) (scan_string r1)
              | None => None
              end
        end
      else if code c <? 32 then None
      else if code c <? 128 then prepend (String c EmptyString) (scan_string r)
      else
        match Utf8.sequence c r, r with
        | 2%nat, String c1 r1 =>
            prepend (String c (String c1 EmptyString)) (scan_string r1)
        | 3%nat, String c1 (String c2 r2) =>
            prepend (String c (String c1 (String c2 EmptyString)))
                    (scan_string r2)
        | 4%nat, String c1 (String c2 (String c3 r3)) =>
            prepend (String c (String c1 (String c2 (String c3 EmptyString))))
                    (scan_string r3)
        | _, _ => prepend replacement (scan_string r)
        end
  end.

Fixpoint span_digits (s : string) : string * string :=
  match s with
  | String c r =>
      if is_digit c then
        let (d, r') := span_digits r in (String c d, r')
      else (EmptyString, s)
  | EmptyString => (EmptyString, EmptyString)
  end.

Definition scan_int_part (s : string) : option (string * string) :=
  match s with
  | String c r =>
      if Ascii.eqb c "0" then Some (String c EmptyString, r)
      else if is_digit c then
        let (d, r') := span_digits r in Some (String c d, r')
      else None
  | EmptyString => None
  end.

Definition scan_digits1 (s : string) : option (string * string) :=
  match span_digits s with
  | (EmptyString, _) => None
  | (d, r) => Some (d, r)
  end.

Definition scan_frac (s : string) : option (string * string) :=
  match s with
  | String c r =>
      if Ascii.eqb c "." then prepend (String c EmptyString) (scan_digits1 r)
      else Some (EmptyString, s)
  | EmptyString => Some (EmptyString, s)
  end.

Definition scan_exp (s : string) : option (string * string) :=
  match s with
  | String c r =>
      if Ascii.eqb c "e" || Ascii.eqb c "E" then
        match r with
        | String g r1 =>
            if Ascii.eqb g "+" || Ascii.eqb g "-" then
              prepend (String c (String g EmptyString)) (scan_digits1 r1)
            else prepend (String c EmptyString) (scan_digits1 r)
        | EmptyString => None
        end
      else Some (EmptyString, s)
  | EmptyString => Some (EmptyString, s)
  end.

(** A number literal: an optional minus sign; then a single zero, or a
    non-zero digit and further digits; then optionally a point and one or
    more digits; then optionally an exponent ([e] or [E], an optional
    sign, one or more digits). *)
Definition scan_number (s : string) : option (string * string) :=
  let (sign, s1) :=
    match s with
    | String c r =>
        if Ascii.eqb c "-" then (String c EmptyString, r) else (EmptyString, s)
    | EmptyString => (EmptyString, s)
    end in
  match scan_int_part s1 with
  | None => None
  | Some (i, s2) =>
      match scan_frac s2 with
      | None => None
      | Some (f, s3) =>
          match scan_exp s3 with
          | None => None
          | Some (e, s4) => Some (sign +:+ i +:+ f +:+ e, s4)
          end
      end
  end.

Fixpoint strip_prefix (p s : string) : option string :=
  match p, s with
  | EmptyString, _ => Some s
  | String a p', String b s' =>
      if Ascii.eqb a b then strip_prefix p' s' else None
  | _, EmptyString => None
  end.

Definition literal (p : string) (v : value) (s : string)
  : option (value * string) :=
  match strip_prefix p s with
  | Some r => Some (v, r)
  | None => None
  end.

(** One JSON value at the start of [s] (after white space), and the text
    that follows it.  [fuel] bounds the nesting and the number of members;
    the length of the text is always enough. *)
Fixpoint parse_value (fuel : nat) (s : string) {struct fuel}
  : option (value * string) :=
  match fuel with
  | O => None
  | S f =>
      match skip_ws s with
      | EmptyString => None
      | String c r =>
          if Ascii.eqb c "{" then
            match skip_ws r with
            | String c1 r1 =>
                if Ascii.eqb c1 "}" then Some (JObj [], r1)
                else
                  match parse_members f (String c1 r1) with
                  | Some (m, r2) => Some (JObj m, r2)
                  | None => None
                  end
            | EmptyString => None
            end
          else if Ascii.eqb c "[" then
            match skip_ws r with
            | String c1 r1 =>
                if Ascii.eqb c1 "]" then Some (JArr [], r1)
                else
                  match parse_elements f (String c1 r1) with
                  | Some (l, r2) => Some (JArr l, r2)
                  | None => None
                  end
            | EmptyString => None
            end
          else if Ascii.eqb c dquote then
            match scan_string r with
            | Some (str, r1) => Some (JStr str, r1)
            | None => None
            end
          else if Ascii.eqb c "t" then literal "rue" (JBool true) r
          else if Ascii.eqb c "f" then literal "alse" (JBool false) r
          else if Ascii.eqb c "n" then literal "ull" JNull r
          else
            match scan_number (String c r) with
            | Some (lit, r1) => Some (JNum lit, r1)
            | None => None
            end
      end
  end

with parse_members (fuel : nat) (s : string) {struct fuel}
  : option (list (string * value) * string) :=
  match fuel with
  | O => None
  | S f =>
      match skip_ws s with
      | EmptyString => None
      | String c r =>
          if Ascii.eqb c dquote then
            match scan_string r with
            | None => None
            | Some (k, r1) =>
                match skip_ws r1 with
                | EmptyString => None
                | String c2 r2 =>
                    if Ascii.eqb c2 ":" then
                      match parse_value f r2 with
                      | None => None
                      | Some (v, r3) =>
                          match skip_ws r3 with
                          | EmptyString => None
                          | String c4 r4 =>
                              if Ascii.eqb c4 "," then
                                match parse_members f r4 with
                                | Some (m, r5) => Some ((k, v) :: m, r5)
                                | None => None
                                end
                              else if Ascii.eqb c4 "}" then
                                Some ([(k, v)], r4)
                              else None
                          end
                      end
                    else None
                end
            end
          else None
      end
  end

with parse_elements (fuel : nat) (s : string) {struct fuel}
  : option (list value * string) :=
  match fuel with
  | O => None
  | S f =>
      match parse_value f s with
      | None => None
      | Some (v, r) =>
          match skip_ws r with
          | EmptyString => None
          | String c r1 =>
              if Ascii.eqb c "," then
                match parse_elements f r1 with
                | Some (l, r2) => Some (v :: l, r2)
                | None => None
                end
              else if Ascii.eqb c "]" then Some ([v], r1)
              else None
          end
      end
  end.

(** A whole text: one value, with nothing but white space around it. *)
Definition parse (data : string) : option value :=
  match parse_value (S (String.length data)) data with
  | Some (v, r) =>
      match skip_ws r with
      | EmptyString => Some v
      | _ => None
      end
  | None => None
  end.

(** Text that may follow a number inside an object: it starts with a
    comma or a closing brace. *)
Definition after_value (rest : string) : Prop :=
  exists c r, rest = String c r /\ (c = ","%char \/ c = "}"%char).

(** *** Decoding into a struct *)

Inductive DecodeError := SyntaxError | UnmarshalTypeError.

(** The text of the error; the package's own wording, which names the
    offending character or field, is not reproduced. *)
Definition error_text (e : DecodeError) : string :=
  match e with
  | SyntaxError => "invalid JSON input"
  | UnmarshalTypeError => "json: cannot unmarshal value into Go struct field"
  end.

Fixpoint find_index {A} (p : A -> bool) (l : list A) : option nat :=
  match l with
  | [] => None
  | x :: r => if p x then Some O else option_map S (find_index p r)
  end.

(** A key as it is compared with the names when no name is equal to it:
    ASCII letters in lower case, and the two letters outside ASCII that
    fold to an ASCII letter, U+017F (long s) and U+212A (Kelvin sign), as
    [s] and [k]. *)
Fixpoint fold (key : string) : string :=
  match key with
  | EmptyString => EmptyString
  | String c r =>
      match r with
      | String c1 r1 =>
          if Ascii.eqb c "197" && Ascii.eqb c1 "191" then String "s" (fold r1)
          else
            match r1 with
            | String c2 r2 =>
                if Ascii.eqb c "226" && Ascii.eqb c1 "132"
                   && Ascii.eqb c2 "170"
                then String "k" (fold r2)
                else String (to_lower c) (fold r)
            | EmptyString => String (to_lower c) (fold r)
            end
      | EmptyString => String (to_lower c) EmptyString
      end
  end.

(** The field a key of the object goes to: the exported field of exactly
    that JSON name, or else the first one equal to it under case folding
    (the names being ASCII). *)
Definition field_index (key : string) (st : list Field) : option nat :=
  match find_index (fun f => exported f && String.eqb (json_name f) key) st with
  | Some i => Some i
  | None =>
      find_index
        (fun f => exported f && String.eqb (lower (json_name f)) (fold key)) st
  end.

(** Storing a JSON value in a field: [null] changes nothing, a string goes
    to a string field, an integer literal in range to an int field,
    anything else is a type error. *)
Definition set_field (v : value) (f : Field) : Field * option DecodeError :=
  match v, fval f with
  | JNull, _ => (f, None)
  | JStr s, VString _ => (mkField (go_name f) (json_name f) (VString s), None)
  | JNum lit, VInt _ =>
      match ParseInt lit with
      | (i, None) => (mkField (go_name f) (json_name f) (VInt i), None)
      | (_, Some _) => (f, Some UnmarshalTypeError)
      end
  | _, _ => (f, Some UnmarshalTypeError)
  end.

(** The members of an object, in order; a later duplicate key overwrites
    an earlier one; decoding goes on after a type error and reports the
    first one. *)
Fixpoint assign_members (m : list (string * value)) (st : list Field)
    (err : option DecodeError) : list Field * option DecodeError :=
  match m with
  | [] => (st, err)
  | (k, v) :: r =>
      match field_index k st with
      | None => assign_members r st err
      | Some i =>
          match st !! i with
          | None => assign_members r st err
          | Some f =>
              let (f', e) := set_field v f in
              assign_members r (<[i := f']> st)
                (match err with None => e | Some _ => err end)
          end
      end
  end.

(** [json.Unmarshal(data, &st)]: the struct after decoding and the error. *)
Definition Unmarshal (data : string) (st : list Field)
  : list Field * option DecodeError :=
  match parse data with
  | None => (st, Some SyntaxError)
  | Some JNull => (st, None)
  | Some (JObj m) => assign_members m st None
  | Some _ => (st, Some UnmarshalTypeError)
  end.

(** The strings right under a value, and under the members of an object,
    are well-formed UTF-8. *)
Definition valid_string (v : value) : Prop :=
  match v with
  | JStr s => Utf8.ValidString s = true
  | _ => True
  end.

Definition valid_members (m : list (string * value)) : Prop :=
  Forall (fun kv => valid_string (snd kv)) m.

End Json.

(** ** The chaincode stub

  The ledger is a finite map from keys to values.  The stub records every
  call made to the ledger in [Log], and the environment decides through
  [Fault], from the calls made so far and the call at hand, whether that
  call fails and with which message; a stub that refuses some keys, such
  as the empty key, is one whose [Fault] fails the writes to them.  A
  write is visible to the reads that follow it, and stays when the handler
  later answers with an error. *)

Module Shim.
Import Chars.

Inductive Response :=
| Success (payload : option string)
| Error (message : string).

Inductive Op :=
| OpGet (key : string)
| OpPut (key value : string)
| OpDel (key : string)
| OpRange (startKey endKey : string)
| OpNext
| OpClose.

Record Stub := mkStub {
  State : gmap string string;
  Log : list Op;
  Fault : list Op -> Op -> option string
}.

Definition M (A : Type) : Type := Stub -> A * Stub.

Definition ret {A} (a : A) : M A := fun st => (a, st).

Definition bind {A B} (m : M A) (k : A -> M B) : M B :=
  fun st => let (a, st') := m st in k a st'.

Definition record (o : Op) (st : Stub) : Stub :=
  mkStub (State st) (Log st ++ [o]) (Fault st).

Definition with_state (m : gmap string string) (st : Stub) : Stub :=
  mkStub m (Log st) (Fault st).

(** [GetState]: the value at the key ([None] for Go's [nil], when there is
    none) and the error. *)
Definition GetState (key : string) : M (option string * option string) :=
  fun st =>
    match Fault st (Log st) (OpGet key) with
    | Some e => ((None, Some e), record (OpGet key) st)
    | None => ((State st !! key, None), record (OpGet key) st)
    end.

Definition PutState (key value : string) : M (option string) :=
  fun st =>
    match Fault st (Log st) (OpPut key value) with
    | Some e => (Some e, record (OpPut key value) st)
    | None =>
        (None, record (OpPut key value)
                 (with_state (<[key := value]> (State st)) st))
    end.

Definition DelState (key : string) : M (option string) :=
  fun st =>
    match Fault st (Log st) (OpDel key) with
    | Some e => (Some e, record (OpDel key) st)
    | None =>
        (None, record (OpDel key) (with_state (delete key (State st)) st))
    end.

(** No call to the ledger fails, whatever was called before. *)
Definition fault_free (st : Stub) : Prop := forall log o, Fault st log o = None.

(** The calls that change the ledger. *)
Definition is_write (o : Op) : bool :=
  match o with
  | OpPut _ _ | OpDel _ => true
  | _ => false
  end.

Definition writes (log : list Op) : list Op := List.filter is_write log.

Definition key_le (x y : string * string) : Prop := String.le (fst x) (fst y).

#[global] Instance key_le_dec : RelDecision key_le.
Proof. intros x y. unfold key_le. apply _. Defined.

(** Whether the iterator yields the entry at a key: with both bounds
    empty the query is open-ended and every key is in it; otherwise the
    key is compared with the two bounds as they are, [startKey] included
    and [endKey] excluded.  This is the reading of [shim.MockStub]; the
    stub of a peer reads each empty bound as unbounded on its side and
    leaves the composite keys out.  With two non-empty bounds the stubs
    agree. *)
Definition in_range (startKey endKey key : string) : bool :=
  (String.eqb startKey EmptyString && String.eqb endKey EmptyString)
  || (String.leb startKey key && String.ltb key endKey).

(** The entries the iterator of a range query yields, in the order of the
    keys (byte-wise lexicographic). *)
Definition rangeScan (m : gmap string string) (startKey endKey : string)
  : list (string * string) :=
  merge_sort key_le
    (List.filter (fun kv => in_range startKey endKey (fst kv)) (map_to_list m)).

(** [GetStateByRange]: the iterator, given by the entries it has yet to
    return, and the error.  A stub that refuses some bounds, such as those
    that start with U+0000, is one whose [Fault] fails the query for
    them. *)
Definition GetStateByRange (startKey endKey : string)
  : M (list (string * string) * option string) :=
  fun st =>
    match Fault st (Log st) (OpRange startKey endKey) with
    | Some e => (([], Some e), record (OpRange startKey endKey) st)
    | None =>
        ((rangeScan (State st) startKey endKey, None),
         record (OpRange startKey endKey) st)
    end.

(** The call of [Next] on an iterator that has a next entry: the error,
    if the call fails. *)
Definition Next : M (option string) :=
  fun st => (Fault st (Log st) OpNext, record OpNext st).

Definition Close : M unit := fun st => (tt, record OpClose st).

(** *** Composite keys *)

(** The first U+0000 or U+10FFFF of a well-formed string, as [fmt] writes
    it with the verb [%#U], and the index of its first byte. *)
Fixpoint bound_rune (s : string) (index : Z) : option (string * Z) :=
  match s with
  | EmptyString => None
  | String c r =>
      if Ascii.eqb c NUL then Some ("U+0000", index)
      else
        match r with
        | String c1 (String c2 (String c3 _)) =>
            if Ascii.eqb c "244" && Ascii.eqb c1 "143" && Ascii.eqb c2 "191"
               && Ascii.eqb c3 "191"
            then Some ("U+10FFFF", index)
            else bound_rune r (index + 1)
        | _ => bound_rune r (index + 1)
        end
  end.

(** The bytes of a string as [fmt] writes them with the verb [%x]. *)
Fixpoint hex_bytes (s : string) : string :=
  match s with
  | EmptyString => EmptyString
  | String c r =>
      String (Json.hex_digit (code c / 16))
        (String (Json.hex_digit (code c mod 16)) (hex_bytes r))
  end.

(** An attribute of a composite key is a well-formed UTF-8 string without
    U+0000 and U+10FFFF; the result is the error, if it is not. *)
Definition validateCompositeKeyAttribute (str : string) : option string :=
  if negb (Utf8.ValidString str) then
    Some ("not a valid utf8 string: [" +:+ hex_bytes str +:+ "]")
  else
    match bound_rune str 0 with
    | Some (runeValue, index) =>
        Some ("input contain unicode " +:+ runeValue
              +:+ " starting at position [" +:+ Strconv.Itoa index
              +:+ "]. U+0000 and U+10FFFF are not allowed in the input attribute of a composite key")
    | None => None
    end.

Fixpoint append_attributes (ck : string) (attributes : list string)
  : string * option string :=
  match attributes with
  | [] => (ck, None)
  | att :: r =>
      match validateCompositeKeyAttribute att with
      | Some e => (EmptyString, Some e)
      | None => append_attributes (ck +:+ att +:+ String NUL EmptyString) r
      end
  end.

(** [CreateCompositeKey]: the name space byte, the object type and the
    attributes, each followed by U+0000. *)
Definition CreateCompositeKey (objectType : string) (attributes : list string)
  : string * option string :=
  match validateCompositeKeyAttribute objectType with
  | Some e => (EmptyString, Some e)
  | None =>
      append_attributes
        (String NUL EmptyString +:+ objectType +:+ String NUL EmptyString)
        attributes
  end.

End Shim.

Notation "'do' x <- m ;; k" := (Shim.bind m (fun x => k))
(at level 10, x pattern, m at level 99, k at level 200,
 format "'[v' 'do'  x  <-  m  ;;  '/' k ']'").

(** ** [coggia.go]: wallets [{address, balance}] with an index *)

Module Coggia.
Import Chars Strconv Shim.

Record Wallet := mkWallet { Address : string; Balance : Z }.

(** The struct as [encoding/json] sees it: both fields are exported. *)
Definition fields (w : Wallet) : list Json.Field :=
  [ Json.mkField "Address" "address" (Json.VString (Address w));
    Json.mkField "Balance" "balance" (Json.VInt (Balance w)) ].

Definition of_fields (w : Wallet) (fs : list Json.Field) : Wallet :=
  match fs with
  | [ Json.mkField _ _ (Json.VString a); Json.mkField _ _ (Json.VInt b) ] =>
      mkWallet a b
  | _ => w
  end.

Definition json_Marshal (w : Wallet) : string * option string :=
  Json.Marshal (fields w).

Definition json_Unmarshal (data : string) (w : Wallet)
  : Wallet * option Json.DecodeError :=
  let (fs, err) := Json.Unmarshal data (fields w) in (of_fields w fs, err).

(** [err] is declared at the top and not assigned before the test that
    follows [Atoi], whose own error is dropped; the emptiness test reads
    the first argument twice. *)
Definition initWallet (args : list string) : M Response :=
  let err : option string := None in
  match args with
  | [arg0; arg1] =>
      if (String.length arg0 <=? 0)%nat || (String.length arg0 <=? 0)%nat then
        ret (Error "Arguments can't be non empty")
      else
        let address := arg0 in
        let (balance, _) := Atoi arg1 in
        match err with
        | Some _ => ret (Error "2nd Argument must be a numeric string")
        | None =>
            let Wallet := mkWallet address balance in
            match json_Marshal Wallet with
            | (_, Some e) => ret (Error e)
            | (WalletJSONasBytes, None) =>
                do err <- PutState address WalletJSONasBytes ;;
                match err with
                | Some e => ret (Error e)
                | None =>
                    let indexName := "address~balance" in
                    match CreateCompositeKey indexName
                            [Address Wallet; Itoa (Balance Wallet)] with
                    | (_, Some e) => ret (Error e)
                    | (addressBalanceIndexKey, None) =>
                        let value := String NUL EmptyString in
                        do _ <- PutState addressBalanceIndexKey value ;;
                        ret (Success None)
                    end
                end
            end
        end
  | _ => ret (Error "Incorrect Number of arguments, expecting 2")
  end.

Definition readWallet (args : list string) : M Response :=
  match args with
  | [address] =>
      do (valAsBytes, err) <- GetState address ;;
      match err, valAsBytes with
      | Some _, _ =>
          ret (Error ("{" +:+ q "Error" +:+ ":"
                      +:+ q ("Failed to get state for " +:+ address) +:+ "}"))
      | None, None =>
          ret (Error ("{" +:+ q "Error" +:+ ":"
                      +:+ q ("Wallet does not exist: " +:+ address) +:+ "}"))
      | None, Some val => ret (Success (Some val))
      end
  | _ => ret (Error "Incorrect number of arguments, expecting the address to query")
  end.

Definition transferFunds (args : list string) : M Response :=
  match args with
  | from :: to :: arg2 :: _ =>
      let (transfer, _) := Atoi arg2 in
      do (fromAsBytes, err) <- GetState from ;;
      match err, fromAsBytes with
      | Some e, _ => ret (Error ("Failed to get Wallet: " +:+ e))
      | None, None => ret (Error "Wallet 1 doesn't exist")
      | None, Some fromAsBytes =>
          do (toAsBytes, err) <- GetState to ;;
          match err, toAsBytes with
          | Some e, _ => ret (Error ("Failed to get Wallet: " +:+ e))
          | None, None => ret (Error "Wallet 1 doesn't exist")
          | None, Some toAsBytes =>
              match json_Unmarshal fromAsBytes (mkWallet EmptyString 0) with
              | (_, Some e) => ret (Error (Json.error_text e))
              | (WalletFrom, None) =>
                  match json_Unmarshal toAsBytes (mkWallet EmptyString 0) with
                  | (_, Some e) => ret (Error (Json.error_text e))
                  | (WalletTo, None) =>
                      let WalletTo :=
                        mkWallet (Address WalletTo)
                                 (GoInt.add (Balance WalletTo) transfer) in
                      let WalletFrom :=
                        mkWallet (Address WalletFrom)
                                 (GoInt.sub (Balance WalletFrom) transfer) in
                      let (WalletToAsBytes, _) := json_Marshal WalletTo in
                      do err <- PutState to WalletToAsBytes ;;
                      match err with
                      | Some e => ret (Error e)
                      | None =>
                          let (WalletFromAsBytes, _) := json_Marshal WalletFrom in
                          do err <- PutState from WalletFromAsBytes ;;
                          match err with
                          | Some e => ret (Error e)
                          | None => ret (Success None)
                          end
                      end
                  end
              end
          end
      end
  | _ => ret (Error "Incorrect number of arguments. Expecting 3")
  end.

(** One entry of the answer of [getWalletsByRange], as the loop writes it. *)
Definition write_entry (buffer : string) (kv : string * string) : string :=
  buffer +:+ "{" +:+ q "Key" +:+ ":" +:+ String dquote EmptyString
         +:+ fst kv +:+ String dquote EmptyString
         +:+ ", " +:+ q "Record" +:+ ":" +:+ snd kv +:+ "}".

(** The loop over the iterator: the buffer at the end, or the error of a
    failed [Next]. *)
Fixpoint scan_loop (resultsIterator : list (string * string))
    (buffer : string) (bArrayMemberAlreadyWritten : bool)
  : M (string + string) :=
  match resultsIterator with
  | [] => ret (inl buffer)
  | queryResponse :: resultsIterator =>
      do err <- Next ;;
      match err with
      | Some e => ret (inr e)
      | None =>
          let buffer :=
            if bArrayMemberAlreadyWritten then buffer +:+ "," else buffer in
          scan_loop resultsIterator (write_entry buffer queryResponse) true
      end
  end.

Definition getWalletsByRange (args : list string) : M Response :=
  match args with
  | startKey :: endKey :: _ =>
      do (resultsIterator, err) <- GetStateByRange startKey endKey ;;
      match err with
      | Some e => ret (Error e)
      | None =>
          do r <- scan_loop resultsIterator "[" false ;;
          do _ <- Close ;;
          match r with
          | inr e => ret (Error e)
          | inl buffer => ret (Success (Some (buffer +:+ "]")))
          end
      end
  | _ => ret (Error "Incorrect number of arguments. Expecting 2")
  end.

(** The answer to a range query as the interface describes it: the
    entries as objects with the members [Key] and [Record], separated by
    commas, between brackets. *)
Definition entry (kv : string * string) : string :=
  "{" +:+ q "Key" +:+ ":" +:+ q (fst kv) +:+ ", " +:+ q "Record" +:+ ":"
      +:+ snd kv +:+ "}".

Definition array (entries : list (string * string)) : string :=
  "[" +:+ Json.join_comma (map entry entries) +:+ "]".

Definition Invoke (function : string) (args : list string) : M Response :=
  if String.eqb function "initWallet" then initWallet args
  else if String.eqb function "transferFunds" then transferFunds args
  else if String.eqb function "readWallet" then readWallet args
  else if String.eqb function "getWalletsByRange" then getWalletsByRange args
  else ret (Error "Received Unknown function invocation").

(** The wallet that the record at a key decodes to, if there is a record
    and it decodes. *)
Definition wallet_at (st : Stub) (key : string) : option Wallet :=
  match State st !! key with
  | Some data =>
      match json_Unmarshal data (mkWallet EmptyString 0) with
      | (w, None) => Some w
      | (_, Some _) => None
      end
  | None => None
  end.

Definition balance_at (st : Stub) (key : string) : option Z :=
  option_map Balance (wallet_at st key).

(** Every record that decodes to a wallet sits at the key that is the
    wallet's address. *)
Definition keyed (st : Stub) : Prop :=
  forall k w, wallet_at st k = Some w -> Address w = k.

(** The fields of a wallet whose address is well-formed UTF-8 and whose
    balance is an [int]. *)
Definition decoded_fields (fs : list Json.Field) : Prop :=
  exists a b, fs = fields (mkWallet a b)
              /\ Utf8.ValidString a = true /\ GoInt.in_range b.

End Coggia.


(** ** The Halley contract: wallets [{id, balance, owner}]

  Two places of this program are not accepted by the Go compiler as they
  stand: [transferFunds] appends an [error] to a string, read here as
  appending the error's text, and [queryWallet] passes a string where
  bytes are expected, read here as the bytes of that string. *)

Module Halley.
Import Chars Strconv Shim.

Record Wallet := mkWallet { id : string; balance : Z; owner : string }.

(** The struct as [encoding/json] sees it: the three fields carry [json:]
    tags, but their Go names start with a lower-case letter, so none of
    them is exported. *)
Definition fields (w : Wallet) : list Json.Field :=
  [ Json.mkField "id" "id" (Json.VString (id w));
    Json.mkField "balance" "balance" (Json.VInt (balance w));
    Json.mkField "owner" "owner" (Json.VString (owner w)) ].

Definition of_fields (w : Wallet) (fs : list Json.Field) : Wallet :=
  match fs with
  | [ Json.mkField _ _ (Json.VString i); Json.mkField _ _ (Json.VInt b);
      Json.mkField _ _ (Json.VString o) ] => mkWallet i b o
  | _ => w
  end.

Definition json_Marshal (w : Wallet) : string * option string :=
  Json.Marshal (fields w).

Definition json_Unmarshal (data : string) (w : Wallet)
  : Wallet * option Json.DecodeError :=
  let (fs, err) := Json.Unmarshal data (fields w) in (of_fields w fs, err).

(** [Wallet{}], and the text of an object without members. *)
Definition zero_wallet : Wallet := mkWallet EmptyString 0 EmptyString.
Definition empty_object : string := String "{" (String "}" EmptyString).

(** Every record in the ledger is the empty object. *)
Definition blank (st : Stub) : Prop :=
  forall k v, State st !! k = Some v -> v = empty_object.

(** The answer of [queryWallet] for a key and the record found there. *)
Definition envelope (id val : string) : string :=
  "{" +:+ q "ID" +:+ ":" +:+ q id +:+ "," +:+ q "RESULT" +:+ ":" +:+ q val +:+ "}".

(** The bytes of a value read from the ledger; [nil] has none. *)
Definition bytes (b : option string) : string :=
  match b with
  | Some s => s
  | None => EmptyString
  end.

Definition transferFunds (args : list string) : M Response :=
  match args with
  | arg0 :: arg1 :: arg2 :: _ =>
      do (fromAsBytes, err) <- GetState arg0 ;;
      match err, fromAsBytes with
      | Some _, _ => ret (Error "Failed to get [FROM] Wallet")
      | None, None => ret (Error "Wallet [FROM] does not exist")
      | None, Some _ =>
          do (toAsBytes, err) <- GetState arg1 ;;
          (* the source tests [fromAsBytes] here too *)
          match err, fromAsBytes with
          | Some _, _ => ret (Error "Failed to get [TO] Wallet")
          | None, None => ret (Error "Wallet [TO] does not exist")
          | None, Some _ =>
              match json_Unmarshal (bytes fromAsBytes)
                      (mkWallet EmptyString 0 EmptyString) with
              | (_, Some _) => ret (Error "Failed to unmarshal wallet")
              | (from, None) =>
                  match json_Unmarshal (bytes toAsBytes)
                          (mkWallet EmptyString 0 EmptyString) with
                  | (_, Some _) => ret (Error "Failed to unmarshal wallet")
                  | (to, None) =>
                      match Atoi arg2 with
                      | (_, Some _) => ret (Error "Failed to parse into Integer")
                      | (funds, None) =>
                          let from :=
                            mkWallet (id from) (GoInt.sub (balance from) funds)
                                     (owner from) in
                          let to :=
                            mkWallet (id to) (GoInt.add (balance to) funds)
                                     (owner to) in
                          let (fromJSONasBytes, _) := json_Marshal from in
                          do err <- PutState (id from) fromJSONasBytes ;;
                          match err with
                          | Some e =>
                              ret (Error ("Error saving the state of wallet [F]"
                                          +:+ e))
                          | None =>
                              let (toJSONasBytes, _) := json_Marshal to in
                              do err <- PutState (id to) toJSONasBytes ;;
                              match err with
                              | Some e =>
                                  ret (Error
                                    ("Error saving the state of the wallet [T]"
                                     +:+ e))
                              | None => ret (Success None)
                              end
                          end
                      end
                  end
              end
          end
      end
  | _ => ret (Error "Incorrect Number of arguments. Expecting 3")
  end.

Definition createWallet (args : list string) : M Response :=
  match args with
  | [arg0; arg1; arg2] =>
      let id := arg0 in
      match Atoi arg1 with
      | (_, Some _) => ret (Error "2nd argument can't be parsed into an Integer")
      | (balance, None) =>
          let owner := arg2 in
          do (walletAsBytes, err) <- GetState id ;;
          match err, walletAsBytes with
          | Some _, _ => ret (Error "Failed to get marble")
          | None, Some _ => ret (Error ("This wallet already exists: " +:+ id))
          | None, None =>
              let wallet := mkWallet id balance owner in
              match json_Marshal wallet with
              | (_, Some _) => ret (Error "Failed to marshal to JSON")
              | (walletJSONasBytes, None) =>
                  do err <- PutState id walletJSONasBytes ;;
                  match err with
                  | Some _ => ret (Error "Failed to save the wallet")
                  | None => ret (Success None)
                  end
              end
          end
      end
  | _ => ret (Error "Incorrect number of arguments. Expecting 3")
  end.

Definition queryWallet (args : list string) : M Response :=
  match args with
  | id :: _ =>
      do (valAsBytes, err) <- GetState id ;;
      match err, valAsBytes with
      | Some _, _ =>
          ret (Error ("{" +:+ q "Error" +:+ ":"
                      +:+ q ("Failed to get state for " +:+ id) +:+ "}"))
      | None, None =>
          ret (Error ("{" +:+ q "Error" +:+ ":"
                      +:+ q ("Wallet does not exist: " +:+ id) +:+ "}"))
      | None, Some val =>
          ret (Success (Some ("{" +:+ q "ID" +:+ ":" +:+ q id +:+ ","
                              +:+ q "RESULT" +:+ ":" +:+ q val +:+ "}")))
      end
  | [] => ret (Error "Incorrect number of arguments. Expecting 1")
  end.

Definition deleteWallet (args : list string) : M Response :=
  match args with
  | id :: _ =>
      do err <- DelState id ;;
      match err with
      | Some _ => ret (Error "Failed to delete state")
      | None => ret (Success None)
      end
  | [] => ret (Error "Incorrect number of arguments. Expecting 1")
  end.

Definition Invoke (function : string) (args : list string) : M Response :=
  if String.eqb function "transferFunds" then transferFunds args
  else if String.eqb function "createWallet" then createWallet args
  else if String.eqb function "queryWallet" then queryWallet args
  else if String.eqb function "deleteWallet" then deleteWallet args
  else ret (Error "Received Unknown function invocation").

(** The wallet that the record at a key decodes to, if there is a record
    and it decodes. *)
Definition wallet_at (st : Stub) (key : string) : option Wallet :=
  match State st !! key with
  | Some data =>
      match json_Unmarshal data (mkWallet EmptyString 0 EmptyString) with
      | (w, None) => Some w
      | (_, Some _) => None
      end
  | None => None
  end.

Definition balance_at (st : Stub) (key : string) : option Z :=
  option_map balance (wallet_at st key).

End Halley.


(** ** The two contracts side by side *)

Module Ledger.
Import Shim.

Inductive Contract := SimpleChaincode | SmartContract.

Definition transferFunds (c : Contract) : list string -> M Response :=
  match c with
  | SimpleChaincode => Coggia.transferFunds
  | SmartContract => Halley.transferFunds
  end.

Definition Invoke (c : Contract) : string -> list string -> M Response :=
  match c with
  | SimpleChaincode => Coggia.Invoke
  | SmartContract => Halley.Invoke
  end.

(** The balance of the wallet recorded at a key. *)
Definition balance_at (c : Contract) : Stub -> string -> option Z :=
  match c with
  | SimpleChaincode => Coggia.balance_at
  | SmartContract => Halley.balance_at
  end.

(** The wallet at a key without its balance: the address, or the id and
    the owner. *)
Definition identity_at (c : Contract) (st : Stub) (key : string)
  : option (string * string) :=
  match c with
  | SimpleChaincode =>
      option_map (fun w => (Coggia.Address w, EmptyString))
                 (Coggia.wallet_at st key)
  | SmartContract =>
      option_map (fun w => (Halley.id w, Halley.owner w))
                 (Halley.wallet_at st key)
  end.

(** A stub over a given ledger on which no call fails. *)
Definition reliable (m : gmap string string) : Stub :=
  mkStub m [] (fun _ _ => None).

(** The operation names of the external interface. *)
Definition operations : list string :=
  [ "createWallet"; "initWallet"; "queryWallet"; "readWallet";
    "transferFunds"; "deleteWallet"; "getWalletsByRange" ].

End Ledger.


(** ** Ledgers used as examples *)

Module Examples.
Import Shim Ledger.

(** Two wallets created by [initWallet], the second with the largest
    balance an [int] holds. *)
Definition brim : Stub :=
  snd (Coggia.initWallet ["B"; "9223372036854775807"]
        (snd (Coggia.initWallet ["A"; "0"] (reliable ∅)))).

(** The ledger of [pair] on a stub that fails every write to the key a,
    and nothing else. *)
Definition debit_down : Stub :=
  mkStub (State (snd (Coggia.initWallet ["b"; "7"]
                       (snd (Coggia.initWallet ["a"; "5"] (reliable ∅))))))
    []
    (fun _ op =>
       match op with
       | OpPut k _ => if String.eqb k "a" then Some "write refused" else None
       | _ => None
       end).

(** Two wallets created by [initWallet] with balances 5 and 7. *)
Definition pair : Stub :=
  snd (Coggia.initWallet ["b"; "7"]
        (snd (Coggia.initWallet ["a"; "5"] (reliable ∅)))).


(** An empty ledger on a stub that refuses every write to the empty key,
    and nothing else. *)
Definition strict : Stub :=
  mkStub ∅ []
    (fun _ op =>
       match op with
       | OpPut EmptyString _ => Some "key must not be an empty string"
       | _ => None
       end).



(** An empty ledger on a stub that fails every write, and nothing else. *)
Definition write_protected : Stub :=
  mkStub ∅ []
    (fun _ op =>
       match op with
       | OpPut _ _ | OpDel _ => Some "ledger is read-only"
       | _ => None
       end).

(** One and two wallets created by [createWallet]. *)
Definition halley_one : Stub :=
  snd (Halley.createWallet ["w1"; "100"; "alice"] (reliable ∅)).

Definition halley_two : Stub :=
  snd (Halley.createWallet ["w2"; "50"; "bob"] halley_one).

(** The ledger of [halley_two] on a stub that refuses every write to the
    empty key, and nothing else. *)
Definition strict_two : Stub := mkStub (State halley_two) [] (Fault strict).

(** An empty ledger on which every write to a composite key (a key that
    starts with U+0000) fails, and no other call does. *)
Definition index_down : Stub :=
  mkStub ∅ []
    (fun _ op =>
       match op with
       | OpPut (String c _) _ =>
           if Ascii.eqb c Chars.NUL then Some "ledger unavailable" else None
       | _ => None
       end).

End Examples.


(* ------------------------------------------------------------------ *)
(* Properties *)

Section GoIntFacts.
Import GoInt.

Lemma wrap_in_range z : in_range (wrap z).
Proof.
  unfold in_range, wrap, MinInt, MaxInt.
  pose proof (Z.mod_pos_bound (z + 2 ^ 63) (2 ^ 64) ltac:(lia)). lia.
Qed.

Lemma wrap_id z : in_range z -> wrap z = z.
Proof.
  unfold in_range, wrap, MinInt, MaxInt. intros H.
  rewrite Z.mod_small; lia.
Qed.

Lemma wrap_congr a b : (a mod 2 ^ 64 = b mod 2 ^ 64) -> wrap a = wrap b.
Proof.
  unfold wrap. intros H.
  rewrite (Z.add_mod a), (Z.add_mod b), H by lia. reflexivity.
Qed.

Lemma wrap_mod z : wrap z mod 2 ^ 64 = z mod 2 ^ 64.
Proof.
  unfold wrap.
  rewrite Zminus_mod, Z.mod_mod by lia.
  rewrite <- Zminus_mod. f_equal. lia.
Qed.

(** Moving an amount from one balance to the other keeps their sum, in
    [int] arithmetic. *)
Lemma add_sub_transfer f t n : add (sub f n) (add t n) = add f t.
Proof.
  unfold add, sub. apply wrap_congr.
  rewrite Z.add_mod, !wrap_mod, <- Z.add_mod by lia.
  f_equal. lia.
Qed.

End GoIntFacts.

Section StringFacts.

Lemma append_assoc (a b c : string) : ((a ++ b) ++ c = a ++ (b ++ c))%string.
Proof. induction a as [| x a IH]; simpl; [reflexivity | now rewrite IH]. Qed.

Lemma append_nil_r (a : string) : (a ++ EmptyString)%string = a.
Proof. induction a as [| x a IH]; simpl; [reflexivity | now rewrite IH]. Qed.

End StringFacts.

(** Turns the tests on the codes of bytes into inequalities. *)
Ltac bounds :=
  unfold Utf8.seq2, Utf8.seq3, Utf8.seq4, Utf8.between in *;
  repeat match goal with
         | H : _ && _ = true |- _ => apply andb_prop in H as [? ?]
         | H : (_ <=? _) = true |- _ => apply Z.leb_le in H
         | H : (_ <=? _) = false |- _ => apply Z.leb_gt in H
         | H : (_ <? _) = true |- _ => apply Z.ltb_lt in H
         | H : (_ <? _) = false |- _ => apply Z.ltb_ge in H
         | H : (_ =? _) = true |- _ => apply Z.eqb_eq in H
         | H : (_ =? _) = false |- _ => apply Z.eqb_neq in H
         | |- _ && _ = true => apply andb_true_intro; split
         | |- (_ <=? _) = true => apply Z.leb_le
         | |- (_ <? _) = true => apply Z.ltb_lt
         | |- (_ <? _) = false => apply Z.ltb_ge
         | |- (_ <=? _) = false => apply Z.leb_gt
         end.

Section Utf8Facts.
Import Chars Utf8.

Lemma code_char_of z : 0 <= z < 256 -> code (char_of z) = z.
Proof.
  intros H. unfold code, char_of.
  rewrite N_ascii_embedding by lia. lia.
Qed.

Lemma char_of_code c : char_of (code c) = c.
Proof. unfold code, char_of. rewrite N2Z.id. apply ascii_N_embedding. Qed.

Lemma code_bound c : 0 <= code c < 256.
Proof. unfold code. pose proof (N_ascii_bounded c). lia. Qed.

Lemma code_inj c d : code c = code d -> c = d.
Proof. intros H. rewrite <- (char_of_code c), <- (char_of_code d), H. reflexivity. Qed.

Lemma eqb_code c d : code c <> code d -> Ascii.eqb c d = false.
Proof. intros H. apply Ascii.eqb_neq. intros ->. apply H. reflexivity. Qed.

Lemma seq2_lead c c1 : seq2 c c1 = true -> 194 <= code c <= 223.
Proof. intros H. bounds. lia. Qed.

Lemma seq3_lead c c1 c2 : seq3 c c1 c2 = true -> 224 <= code c <= 239.
Proof. intros H. bounds. lia. Qed.

Lemma seq4_lead c c1 c2 c3 : seq4 c c1 c2 c3 = true -> 240 <= code c <= 244.
Proof. intros H. bounds. lia. Qed.

Lemma not_seq2 c c1 : 224 <= code c -> seq2 c c1 = false.
Proof.
  intros H. unfold seq2, between.
  destruct (Z.leb_spec (code c) 223); [lia |]. rewrite andb_false_r. reflexivity.
Qed.

Lemma not_seq3 c c1 c2 : 240 <= code c -> seq3 c c1 c2 = false.
Proof.
  intros H. unfold seq3, between.
  destruct (Z.leb_spec (code c) 239); [lia |]. rewrite andb_false_r. reflexivity.
Qed.

Lemma sequence_2 c c1 r : seq2 c c1 = true -> sequence c (String c1 r) = 2%nat.
Proof. intros H. unfold sequence. rewrite H. reflexivity. Qed.

Lemma sequence_3 c c1 c2 r :
  seq3 c c1 c2 = true -> sequence c (String c1 (String c2 r)) = 3%nat.
Proof.
  intros H. unfold sequence.
  rewrite not_seq2 by (apply seq3_lead in H; lia). rewrite H. reflexivity.
Qed.

Lemma sequence_4 c c1 c2 c3 r :
  seq4 c c1 c2 c3 = true ->
  sequence c (String c1 (String c2 (String c3 r))) = 4%nat.
Proof.
  intros H. unfold sequence.
  rewrite not_seq2 by (apply seq4_lead in H; lia).
  rewrite not_seq3 by (apply seq4_lead in H; lia). rewrite H. reflexivity.
Qed.

(** What the width says about the text. *)
Lemma sequence_cases c r :
  match sequence c r with
  | 0%nat => True
  | 2%nat => exists c1 r1, r = String c1 r1 /\ seq2 c c1 = true
  | 3%nat => exists c1 c2 r2, r = String c1 (String c2 r2) /\ seq3 c c1 c2 = true
  | 4%nat =>
      exists c1 c2 c3 r3,
        r = String c1 (String c2 (String c3 r3)) /\ seq4 c c1 c2 c3 = true
  | _ => False
  end.
Proof.
  unfold sequence. destruct r as [| c1 r1]; [exact I |].
  destruct (seq2 c c1) eqn:E2; [eauto |].
  destruct r1 as [| c2 r2]; [exact I |].
  destruct (seq3 c c1 c2) eqn:E3; [eauto |].
  destruct r2 as [| c3 r3]; [exact I |].
  destruct (seq4 c c1 c2 c3) eqn:E4; [eauto 6 | exact I].
Qed.

Lemma ValidString_ascii c r :
  code c < 128 -> ValidString (String c r) = ValidString r.
Proof.
  intros H. cbn [ValidString]. destruct (Z.ltb_spec (code c) 128); [reflexivity | lia].
Qed.

Lemma ValidString_seq2 c c1 r :
  seq2 c c1 = true -> ValidString (String c (String c1 r)) = ValidString r.
Proof.
  intros H. cbn [ValidString]. rewrite (sequence_2 c c1 r H).
  apply seq2_lead in H. destruct (Z.ltb_spec (code c) 128); [lia | reflexivity].
Qed.

Lemma ValidString_seq3 c c1 c2 r :
  seq3 c c1 c2 = true ->
  ValidString (String c (String c1 (String c2 r))) = ValidString r.
Proof.
  intros H. cbn [ValidString]. rewrite (sequence_3 c c1 c2 r H).
  apply seq3_lead in H. destruct (Z.ltb_spec (code c) 128); [lia | reflexivity].
Qed.

Lemma ValidString_seq4 c c1 c2 c3 r :
  seq4 c c1 c2 c3 = true ->
  ValidString (String c (String c1 (String c2 (String c3 r)))) = ValidString r.
Proof.
  intros H. cbn [ValidString]. rewrite (sequence_4 c c1 c2 c3 r H).
  apply seq4_lead in H. destruct (Z.ltb_spec (code c) 128); [lia | reflexivity].
Qed.

(** A well-formed string is a chain of ASCII bytes and well-formed
    sequences. *)
Lemma ValidString_chain (P : string -> Prop) :
  P EmptyString ->
  (forall c r, code c < 128 -> ValidString r = true -> P r -> P (String c r)) ->
  (forall c c1 r, seq2 c c1 = true -> ValidString r = true -> P r ->
     P (String c (String c1 r))) ->
  (forall c c1 c2 r, seq3 c c1 c2 = true -> ValidString r = true -> P r ->
     P (String c (String c1 (String c2 r)))) ->
  (forall c c1 c2 c3 r, seq4 c c1 c2 c3 = true -> ValidString r = true -> P r ->
     P (String c (String c1 (String c2 (String c3 r))))) ->
  forall s, ValidString s = true -> P s.
Proof.
  intros H0 H1 H2 H3 H4 s.
  remember (String.length s) as n eqn:En.
  assert (Hn : (String.length s <= n)%nat) by lia. clear En.
  revert s Hn. induction n as [| n IH]; intros s Hn Hs.
  { destruct s; [exact H0 | cbn [String.length] in Hn; lia]. }
  destruct s as [| c r]; [exact H0 |].
  cbn [String.length] in Hn. cbn [ValidString] in Hs.
  destruct (Z.ltb_spec (code c) 128) as [Hc | Hc].
  { apply H1; [exact Hc | exact Hs | apply IH; [lia | exact Hs]]. }
  pose proof (sequence_cases c r) as Hq.
  destruct (sequence c r) as [| [| [| [| [| k]]]]]; try discriminate Hs.
  - destruct Hq as (c1 & r1 & -> & E). cbn [String.length] in Hn.
    apply H2; [exact E | exact Hs | apply IH; [lia | exact Hs]].
  - destruct Hq as (c1 & c2 & r2 & -> & E). cbn [String.length] in Hn.
    apply H3; [exact E | exact Hs | apply IH; [lia | exact Hs]].
  - destruct Hq as (c1 & c2 & c3 & r3 & -> & E). cbn [String.length] in Hn.
    apply H4; [exact E | exact Hs | apply IH; [lia | exact Hs]].
Qed.

Lemma ValidString_app a b :
  ValidString a = true -> ValidString b = true -> ValidString (a +:+ b) = true.
Proof.
  intros Ha Hb. revert a Ha.
  apply (ValidString_chain (fun a => ValidString (a +:+ b) = true)).
  - exact Hb.
  - intros c r Hc _ IH. cbn [String.append]. rewrite ValidString_ascii; assumption.
  - intros c c1 r E _ IH. cbn [String.append]. rewrite ValidString_seq2; assumption.
  - intros c c1 c2 r E _ IH. cbn [String.append]. rewrite ValidString_seq3; assumption.
  - intros c c1 c2 c3 r E _ IH. cbn [String.append].
    rewrite ValidString_seq4; assumption.
Qed.

End Utf8Facts.

Section StrconvFacts.
Import Chars Strconv.

Lemma digit_cases d : 0 <= d < 10 ->
  d = 0 \/ d = 1 \/ d = 2 \/ d = 3 \/ d = 4 \/ d = 5 \/ d = 6 \/ d = 7 \/
  d = 8 \/ d = 9.
Proof. lia. Qed.

Lemma digit_char_ok d : 0 <= d < 10 ->
  is_digit (char_of (48 + d)) = true /\ code (char_of (48 + d)) - 48 = d.
Proof.
  intros H. destruct (digit_cases d H) as [-> | H'];
    [ split; reflexivity | ].
  repeat (destruct H' as [-> | H']; [ split; reflexivity | ]).
  subst d. split; reflexivity.
Qed.

Lemma format_digits_parse fuel : forall n acc,
  0 <= n <= GoInt.MaxUint64 -> n < 2 ^ Z.of_nat fuel ->
  parse_uint_loop (format_digits fuel n acc) 0 = parse_uint_loop acc n.
Proof.
  induction fuel as [| f IH]; intros n acc Hn Hf.
  - simpl in *. replace n with 0 by lia. reflexivity.
  - cbn [format_digits].
    pose proof (Z.mod_pos_bound n 10 ltac:(lia)) as Hm.
    destruct (digit_char_ok (n mod 10) Hm) as [Hd Hc].
    assert (Hstep : forall m, m * 10 + n mod 10 <= GoInt.MaxUint64 ->
              parse_uint_loop (String (char_of (48 + n mod 10)) acc) m
              = parse_uint_loop acc (m * 10 + n mod 10)).
    { intros m Hle. cbn [parse_uint_loop]. rewrite Hd, Hc.
      destruct (Z.ltb_spec GoInt.MaxUint64 (m * 10 + n mod 10)); [lia|].
      reflexivity. }
    destruct (Z.ltb_spec n 10) as [Hlt | Hge].
    + rewrite Hstep by (rewrite Z.mod_small; lia).
      rewrite Z.mod_small by lia. reflexivity.
    + pose proof (Z.div_mod n 10 ltac:(lia)) as Hdm.
      rewrite IH.
      * rewrite Hstep by lia. f_equal. lia.
      * split; [apply Z.div_pos; lia | lia].
      * rewrite Nat2Z.inj_succ, Z.pow_succ_r in Hf by lia.
        assert (n / 10 <= n / 2).
        { apply Z.div_le_compat_l; lia. }
        assert (n / 2 < 2 ^ Z.of_nat f).
        { apply Z.div_lt_upper_bound; lia. }
        lia.
Qed.

Lemma format_digits_shape fuel : forall n acc,
  0 <= n ->
  exists c ds, format_digits (S fuel) n acc = String c (ds ++ acc)
    /\ is_digit c = true /\ all_digits ds = true.
Proof.
  induction fuel as [| f IH]; intros n acc Hn.
  - pose proof (Z.mod_pos_bound n 10 ltac:(lia)) as Hm.
    destruct (digit_char_ok (n mod 10) Hm) as [Hd _].
    exists (char_of (48 + n mod 10)), EmptyString.
    cbn [format_digits]. destruct (n <? 10); auto.
  - remember (S f) as f'. cbn [format_digits].
    pose proof (Z.mod_pos_bound n 10 ltac:(lia)) as Hm.
    destruct (digit_char_ok (n mod 10) Hm) as [Hd _].
    destruct (n <? 10).
    + exists (char_of (48 + n mod 10)), EmptyString. auto.
    + subst f'.
      destruct (IH (n / 10) (String (char_of (48 + n mod 10)) acc))
        as (c & ds & E & Hc & Hds); [apply Z.div_pos; lia|].
      exists c, (ds ++ String (char_of (48 + n mod 10)) EmptyString)%string.
      rewrite E. split; [|split; auto].
      * f_equal. rewrite append_assoc. reflexivity.
      * clear -Hds Hd. induction ds as [| a ds IHd]; simpl in *.
        -- rewrite Hd. reflexivity.
        -- apply andb_prop in Hds as [-> H]. simpl. auto.
Qed.

(** A number with more than one digit does not start with [0]. *)
Lemma format_digits_head fuel : forall n acc c r,
  0 < n -> n < 2 ^ Z.of_nat fuel ->
  format_digits fuel n acc = String c r -> c <> "0"%char.
Proof.
  induction fuel as [| f IH]; intros n acc c r Hn Hf E.
  - simpl in Hf. lia.
  - cbn [format_digits] in E.
    destruct (Z.ltb_spec n 10) as [Hlt | Hge].
    + rewrite Z.mod_small in E by lia. inversion E; subst c.
      assert (Hd : 0 <= n < 10) by lia.
      destruct (digit_cases n Hd) as [-> | H']; [lia|].
      repeat (destruct H' as [-> | H']; [ discriminate | ]).
      subst n. discriminate.
    + eapply IH; [| | exact E].
      * apply Z.div_str_pos; lia.
      * rewrite Nat2Z.inj_succ, Z.pow_succ_r in Hf by lia.
        assert (n / 10 <= n / 2) by (apply Z.div_le_compat_l; lia).
        assert (n / 2 < 2 ^ Z.of_nat f) by (apply Z.div_lt_upper_bound; lia).
        lia.
Qed.

Lemma log2_fuel n : 0 <= n -> n < 2 ^ Z.of_nat (S (Z.to_nat (Z.log2 n))).
Proof.
  intros Hn. rewrite Nat2Z.inj_succ, Z2Nat.id by apply Z.log2_nonneg.
  destruct (Z.eq_dec n 0) as [-> | Hz]; [reflexivity|].
  apply Z.log2_spec. lia.
Qed.

Lemma ParseUint_FormatUint n : 0 <= n <= GoInt.MaxUint64 ->
  ParseUint (FormatUint n) = (n, None).
Proof.
  intros Hn. unfold FormatUint.
  destruct (format_digits_shape (Z.to_nat (Z.log2 n)) n EmptyString)
    as (c & ds & E & _); [lia|].
  unfold ParseUint. rewrite E, <- E.
  rewrite format_digits_parse; [reflexivity | lia | apply log2_fuel; lia].
Qed.

Lemma FormatUint_head n c r : 0 <= n ->
  FormatUint n = String c r -> is_digit c = true /\ all_digits r = true
    /\ c <> "-"%char /\ c <> "+"%char /\ (c = "0"%char -> r = EmptyString).
Proof.
  intros Hn E. unfold FormatUint in E.
  destruct (format_digits_shape (Z.to_nat (Z.log2 n)) n EmptyString)
    as (c' & ds & E' & Hc & Hds); [lia|].
  rewrite E' in E. inversion E; subst c' r. clear E.
  rewrite append_nil_r. repeat split; auto.
  - intros ->. discriminate.
  - intros ->. discriminate.
  - intros ->. destruct (Z.eq_dec n 0) as [-> | Hz].
    + vm_compute in E'. inversion E'. destruct ds; [reflexivity | discriminate].
    + exfalso. eapply (format_digits_head _ n EmptyString "0"%char);
        [lia | apply log2_fuel; lia | exact E' | reflexivity].
Qed.

(** [Atoi] reads back what [Itoa] writes, for every [int]. *)
Lemma ParseInt_Itoa z : GoInt.in_range z -> ParseInt (Itoa z) = (z, None).
Proof.
  unfold GoInt.in_range, GoInt.MinInt, GoInt.MaxInt. intros Hz.
  unfold Itoa. destruct (Z.ltb_spec z 0) as [Hneg | Hpos].
  - unfold ParseInt. cbn [Ascii.eqb Bool.eqb].
    rewrite ParseUint_FormatUint by (unfold GoInt.MaxUint64; lia).
    cbn [negb andb].
    destruct (Z.ltb_spec (2 ^ 63) (- z)); [lia|].
    rewrite Z.opp_involutive. f_equal. apply wrap_id.
    unfold GoInt.in_range, GoInt.MinInt, GoInt.MaxInt. lia.
  - destruct (FormatUint z) as [| c r] eqn:E.
    + pose proof (ParseUint_FormatUint z) as P. rewrite E in P.
      unfold GoInt.MaxUint64 in P. specialize (P ltac:(lia)). discriminate.
    + destruct (FormatUint_head z c r Hpos E) as (_ & _ & Hm & Hp & _).
      unfold ParseInt.
      destruct (Ascii.eqb_spec c "+"); [contradiction|].
      destruct (Ascii.eqb_spec c "-"); [contradiction|].
      rewrite <- E, ParseUint_FormatUint by (unfold GoInt.MaxUint64; lia).
      cbn [negb andb].
      destruct (Z.leb_spec (2 ^ 63) z); [lia|]. reflexivity.
Qed.

End StrconvFacts.

Section JsonFacts.
Import Chars Strconv Utf8 Json.

Lemma prepend_some p s rest :
  prepend p (Some (s, rest)) = Some (p +:+ s, rest).
Proof. reflexivity. Qed.

(** The decoder reads one escaped ASCII byte back as that byte. *)
Lemma scan_string_escape_char c tail :
  code c < 128 ->
  scan_string (escape_char c +:+ tail)
  = prepend (String c EmptyString) (scan_string tail).
Proof.
  destruct c as [b0 b1 b2 b3 b4 b5 b6 b7];
    destruct b0, b1, b2, b3, b4, b5, b6, b7; intros H;
    solve [reflexivity | vm_compute in H; discriminate H].
Qed.

Lemma high_not_quote c : 128 <= code c -> Ascii.eqb c dquote = false.
Proof. intros H. apply eqb_code. change (code dquote) with 34. lia. Qed.

Lemma high_not_backslash c : 128 <= code c -> Ascii.eqb c backslash = false.
Proof. intros H. apply eqb_code. change (code backslash) with 92. lia. Qed.

(** A byte outside ASCII in a string literal. *)
Lemma scan_string_high c r :
  128 <= code c ->
  scan_string (String c r)
  = match sequence c r, r with
    | 2%nat, String c1 r1 =>
        prepend (String c (String c1 EmptyString)) (scan_string r1)
    | 3%nat, String c1 (String c2 r2) =>
        prepend (String c (String c1 (String c2 EmptyString))) (scan_string r2)
    | 4%nat, String c1 (String c2 (String c3 r3)) =>
        prepend (String c (String c1 (String c2 (String c3 EmptyString))))
                (scan_string r3)
    | _, _ => prepend replacement (scan_string r)
    end.
Proof.
  intros H. cbn [scan_string].
  rewrite high_not_quote, high_not_backslash by exact H.
  destruct (Z.ltb_spec (code c) 32); [lia |].
  destruct (Z.ltb_spec (code c) 128); [lia |]. reflexivity.
Qed.

Lemma escape_ascii c r :
  code c < 128 -> escape (String c r) = escape_char c +:+ escape r.
Proof.
  intros H. cbn [escape]. destruct (Z.ltb_spec (code c) 128); [reflexivity | lia].
Qed.

Lemma escape_high c r :
  128 <= code c ->
  escape (String c r)
  = match sequence c r, r with
    | 2%nat, String c1 r1 => String c (String c1 (escape r1))
    | 3%nat, String c1 (String c2 r2) =>
        match line_separator c c1 c2 with
        | Some d => String backslash (String "u" (String "2" (String "0"
                      (String "2" (String d (escape r2))))))
        | None => String c (String c1 (String c2 (escape r2)))
        end
    | 4%nat, String c1 (String c2 (String c3 r3)) =>
        String c (String c1 (String c2 (String c3 (escape r3))))
    | _, _ => escaped_replacement +:+ escape r
    end.
Proof.
  intros H. cbn [escape]. destruct (Z.ltb_spec (code c) 128); [lia | reflexivity].
Qed.

Lemma line_separator_bytes c c1 c2 d :
  line_separator c c1 c2 = Some d ->
  c = "226"%char /\ c1 = "128"%char
  /\ ((c2 = "168"%char /\ d = "8"%char) \/ (c2 = "169"%char /\ d = "9"%char)).
Proof.
  unfold line_separator.
  destruct (Ascii.eqb_spec c "226"); [| intros H; discriminate H].
  destruct (Ascii.eqb_spec c1 "128"); [| intros H; discriminate H].
  cbn [andb].
  destruct (Ascii.eqb_spec c2 "168"); [intros H; inversion H; auto |].
  destruct (Ascii.eqb_spec c2 "169"); [intros H; inversion H; auto |].
  intros H; discriminate H.
Qed.

(** Decoding the text written for a well-formed string gives the string
    back. *)
Lemma scan_string_escape s :
  ValidString s = true ->
  forall rest, scan_string (escape s +:+ String dquote rest) = Some (s, rest).
Proof.
  revert s. apply (ValidString_chain
    (fun s => forall rest,
       scan_string (escape s +:+ String dquote rest) = Some (s, rest))).
  - reflexivity.
  - intros c r Hc _ IH rest.
    rewrite escape_ascii, append_assoc, scan_string_escape_char, IH by exact Hc.
    reflexivity.
  - intros c c1 r E _ IH rest.
    pose proof (seq2_lead _ _ E) as Hl.
    rewrite escape_high, (sequence_2 c c1 _ E) by lia.
    cbn [String.append].
    rewrite scan_string_high, (sequence_2 c c1 _ E), IH by lia. reflexivity.
  - intros c c1 c2 r E _ IH rest.
    pose proof (seq3_lead _ _ _ E) as Hl.
    rewrite escape_high, (sequence_3 c c1 c2 _ E) by lia.
    destruct (line_separator c c1 c2) as [d |] eqn:El.
    + apply line_separator_bytes in El as (-> & -> & [[-> ->] | [-> ->]]);
        cbn [String.append];
        match goal with
        | |- scan_string (String _ (String _ (String _ (String _ (String _
               (String _ ?t)))))) = _ =>
            specialize (IH rest); set (tail := t) in *; clearbody tail
        end;
        cbn [scan_string]; unfold backslash, dquote; cbn [Ascii.eqb Bool.eqb];
        change (getu4 "2" "0" "2" "8") with (Some 8232);
        change (getu4 "2" "0" "2" "9") with (Some 8233);
        cbv iota beta; change (is_surrogate 8232) with false;
        change (is_surrogate 8233) with false; cbv iota;
        rewrite IH; reflexivity.
    + cbn [String.append].
      rewrite scan_string_high, (sequence_3 c c1 c2 _ E), IH by lia. reflexivity.
  - intros c c1 c2 c3 r E _ IH rest.
    pose proof (seq4_lead _ _ _ _ E) as Hl.
    rewrite escape_high, (sequence_4 c c1 c2 c3 _ E) by lia.
    cbn [String.append].
    rewrite scan_string_high, (sequence_4 c c1 c2 c3 _ E), IH by lia. reflexivity.
Qed.

Lemma hex_val_bound c n : hex_val c = Some n -> 0 <= n < 16.
Proof.
  unfold hex_val.
  repeat match goal with
         | |- context [if ?b then _ else _] => destruct b eqn:?
         end; intros H; inversion H; subst; bounds; lia.
Qed.

Lemma getu4_bound h1 h2 h3 h4 r : getu4 h1 h2 h3 h4 = Some r -> 0 <= r < 65536.
Proof.
  unfold getu4.
  destruct (hex_val h1) as [a |] eqn:E1; [| intros H; discriminate H].
  destruct (hex_val h2) as [b |] eqn:E2; [| intros H; discriminate H].
  destruct (hex_val h3) as [c |] eqn:E3; [| intros H; discriminate H].
  destruct (hex_val h4) as [d |] eqn:E4; [| intros H; discriminate H].
  apply hex_val_bound in E1, E2, E3, E4. intros H; inversion H; subst. lia.
Qed.

Lemma decode_pair_bound r1 r2 d :
  decode_pair r1 r2 = Some d -> 65536 <= d <= 1114111.
Proof.
  unfold decode_pair.
  destruct (_ && _) eqn:E; intros H; inversion H; subst. bounds. lia.
Qed.

Lemma ValidString_one c : code c < 128 -> ValidString (String c EmptyString) = true.
Proof. intros H. rewrite ValidString_ascii by exact H. reflexivity. Qed.

(** [utf8.EncodeRune] writes well-formed UTF-8. *)
Lemma ValidString_encode_rune r :
  0 <= r <= 1114111 -> ValidString (encode_rune r) = true.
Proof.
  intros Hr. unfold encode_rune.
  destruct (Z.ltb_spec r 128).
  { apply ValidString_one. rewrite code_char_of; lia. }
  destruct (Z.ltb_spec r 2048).
  { rewrite ValidString_seq2; [reflexivity |].
    unfold seq2, between.
    rewrite !code_char_of by (pose proof (Z.mod_pos_bound r 64); pose proof (Z.div_pos r 64);
      assert (r / 64 < 32) by (apply Z.div_lt_upper_bound; lia); lia).
    assert (2 <= r / 64) by (apply Z.div_le_lower_bound; lia).
    assert (r / 64 < 32) by (apply Z.div_lt_upper_bound; lia).
    pose proof (Z.mod_pos_bound r 64 ltac:(lia)).
    bounds; lia. }
  destruct (is_surrogate r) eqn:Es; [reflexivity |].
  destruct (Z.ltb_spec r 65536).
  { assert (H4 : 0 <= r / 4096 < 16)
      by (split; [apply Z.div_pos; lia | apply Z.div_lt_upper_bound; lia]).
    pose proof (Z.mod_pos_bound (r / 64) 64 ltac:(lia)) as H5.
    pose proof (Z.mod_pos_bound r 64 ltac:(lia)) as H6.
    rewrite ValidString_seq3; [reflexivity |].
    unfold seq3, between. rewrite !code_char_of by lia.
    assert (Hs : r < 55296 \/ 57344 <= r).
    { unfold is_surrogate in Es.
      destruct (Z.leb_spec 55296 r); destruct (Z.ltb_spec r 57344);
        try discriminate Es; lia. }
    assert (Hd : r / 64 = 64 * (r / 4096) + (r / 64) mod 64).
    { rewrite (Z.div_mod (r / 64) 64) at 1 by lia.
      rewrite Z.div_div by lia. reflexivity. }
    assert (Hr64 : r = 64 * (r / 64) + r mod 64) by (apply Z.div_mod; lia).
    repeat match goal with
           | |- context [?a =? ?b] => destruct (Z.eqb_spec a b)
           end;
      bounds; lia. }
  assert (H4 : 0 <= r / 262144 <= 4).
  { split; [apply Z.div_pos; lia |].
    assert (r / 262144 < 5) by (apply Z.div_lt_upper_bound; lia). lia. }
  pose proof (Z.mod_pos_bound (r / 4096) 64 ltac:(lia)) as H5.
  pose proof (Z.mod_pos_bound (r / 64) 64 ltac:(lia)) as H6.
  pose proof (Z.mod_pos_bound r 64 ltac:(lia)) as H7.
  rewrite ValidString_seq4; [reflexivity |].
  unfold seq4, between. rewrite !code_char_of by lia.
  assert (Hd : r / 4096 = 64 * (r / 262144) + (r / 4096) mod 64).
  { rewrite (Z.div_mod (r / 4096) 64) at 1 by lia.
    rewrite Z.div_div by lia. reflexivity. }
  assert (Hlo : 16 <= r / 4096) by (apply Z.div_le_lower_bound; lia).
  assert (Hhi : r / 4096 < 272) by (apply Z.div_lt_upper_bound; lia).
  repeat match goal with
         | |- context [?a =? ?b] => destruct (Z.eqb_spec a b)
         end;
    bounds; lia.
Qed.


Lemma simple_escape_ascii e ch : simple_escape e = Some ch -> code ch < 128.
Proof.
  unfold simple_escape.
  repeat match goal with
         | |- context [if ?b then _ else _] => destruct b
         end; intros H; inversion H; subst; vm_compute; reflexivity.
Qed.

Lemma prepend_valid p o s rest :
  prepend p o = Some (s, rest) ->
  ValidString p = true ->
  (forall s', o = Some (s', rest) -> ValidString s' = true) ->
  ValidString s = true.
Proof.
  destruct o as [[s' rest'] |]; cbn [prepend]; intros H Hp Ho; inversion H; subst.
  apply ValidString_app; [exact Hp | apply Ho; reflexivity].
Qed.

Lemma sequence_chunk_2 c c1 r :
  sequence c (String c1 r) = 2%nat ->
  ValidString (String c (String c1 EmptyString)) = true.
Proof.
  intros H. pose proof (sequence_cases c (String c1 r)) as Hq. rewrite H in Hq.
  destruct Hq as (x & y & E & Hs). inversion E; subst.
  rewrite ValidString_seq2 by exact Hs. reflexivity.
Qed.

Lemma sequence_chunk_3 c c1 c2 r :
  sequence c (String c1 (String c2 r)) = 3%nat ->
  ValidString (String c (String c1 (String c2 EmptyString))) = true.
Proof.
  intros H. pose proof (sequence_cases c (String c1 (String c2 r))) as Hq.
  rewrite H in Hq. destruct Hq as (x & y & z & E & Hs). inversion E; subst.
  rewrite ValidString_seq3 by exact Hs. reflexivity.
Qed.

Lemma sequence_chunk_4 c c1 c2 c3 r :
  sequence c (String c1 (String c2 (String c3 r))) = 4%nat ->
  ValidString (String c (String c1 (String c2 (String c3 EmptyString)))) = true.
Proof.
  intros H.
  pose proof (sequence_cases c (String c1 (String c2 (String c3 r)))) as Hq.
  rewrite H in Hq. destruct Hq as (x & y & z & u & E & Hs). inversion E; subst.
  rewrite ValidString_seq4 by exact Hs. reflexivity.
Qed.

(** Whatever the text, the string the decoder reads from a literal is
    well-formed UTF-8. *)
Lemma scan_string_valid n : forall t s rest,
  (String.length t <= n)%nat ->
  scan_string t = Some (s, rest) -> ValidString s = true.
Proof.
  induction n as [| n IH]; intros t s rest Hn H.
  { destruct t; [discriminate H | cbn [String.length] in Hn; lia]. }
  destruct t as [| c r]; [discriminate H |].
  cbn [String.length] in Hn. cbn [scan_string] in H.
  assert (Hstep : forall chunk t',
            prepend chunk (scan_string t') = Some (s, rest) ->
            ValidString chunk = true -> (String.length t' <= n)%nat ->
            ValidString s = true).
  { intros chunk t' Hp Hc Hl. eapply prepend_valid; [exact Hp | exact Hc |].
    intros s' E'. eapply IH; [exact Hl | exact E']. }
  destruct (Ascii.eqb c dquote); [inversion H; reflexivity |].
  destruct (Ascii.eqb c backslash).
  { destruct r as [| e r1]; [discriminate H |]. cbn [String.length] in Hn.
    destruct (Ascii.eqb e "u").
    - destruct r1 as [| h1 [| h2 [| h3 [| h4 r2]]]]; try discriminate H.
      cbn [String.length] in Hn.
      destruct (getu4 h1 h2 h3 h4) as [rr |] eqn:Eg; [| discriminate H].
      apply getu4_bound in Eg.
      destruct (is_surrogate rr).
      + assert (Hrep : prepend replacement (scan_string r2) = Some (s, rest) ->
                       ValidString s = true).
        { intros Hp. apply (Hstep _ _ Hp); [reflexivity | lia]. }
        destruct r2 as [| b [| u [| g1 [| g2 [| g3 [| g4 r3]]]]]];
          try (apply Hrep; exact H).
        destruct (if Ascii.eqb b backslash && Ascii.eqb u "u"
                  then getu4 g1 g2 g3 g4 else None) as [rr1 |];
          [| apply Hrep; exact H].
        destruct (decode_pair rr rr1) as [dec |] eqn:Ed; [| apply Hrep; exact H].
        apply decode_pair_bound in Ed.
        apply (Hstep _ _ H); [apply ValidString_encode_rune; lia |].
        cbn [String.length] in Hn. lia.
      + apply (Hstep _ _ H); [apply ValidString_encode_rune; lia | lia].
    - destruct (simple_escape e) as [ch |] eqn:Ee; [| discriminate H].
      apply (Hstep _ _ H); [| lia].
      apply ValidString_one. eapply simple_escape_ascii. exact Ee. }
  destruct (Z.ltb_spec (code c) 32); [discriminate H |].
  destruct (Z.ltb_spec (code c) 128).
  { apply (Hstep _ _ H); [apply ValidString_one; lia | lia]. }
  assert (Hrep : prepend replacement (scan_string r) = Some (s, rest) ->
                 ValidString s = true).
  { intros Hp. apply (Hstep _ _ Hp); [reflexivity | lia]. }
  destruct (sequence c r) as [| [| [| [| [| k]]]]] eqn:Eq;
    try (apply Hrep; exact H).
  - destruct r as [| c1 r1]; [apply Hrep; exact H |].
    cbn [String.length] in Hn.
    apply (Hstep _ _ H); [eapply sequence_chunk_2; exact Eq | lia].
  - destruct r as [| c1 [| c2 r2]]; try (apply Hrep; exact H).
    cbn [String.length] in Hn.
    apply (Hstep _ _ H); [eapply sequence_chunk_3; exact Eq | lia].
  - destruct r as [| c1 [| c2 [| c3 r3]]]; try (apply Hrep; exact H).
    cbn [String.length] in Hn.
    apply (Hstep _ _ H); [eapply sequence_chunk_4; exact Eq | lia].
Qed.

Lemma scan_string_ValidString t s rest :
  scan_string t = Some (s, rest) -> ValidString s = true.
Proof. apply (scan_string_valid (String.length t)). lia. Qed.

Lemma span_digits_stop ds rest :
  all_digits ds = true -> after_value rest ->
  span_digits (ds +:+ rest) = (ds, rest).
Proof.
  intros Hds (c & r & -> & Hc).
  induction ds as [| d ds IH]; simpl in *.
  - destruct Hc as [-> | ->]; reflexivity.
  - apply andb_prop in Hds as [Hd Hds]. rewrite Hd, IH by assumption.
    reflexivity.
Qed.

Lemma scan_int_part_digits c r rest :
  is_digit c = true -> all_digits r = true ->
  (c = "0"%char -> r = EmptyString) -> after_value rest ->
  scan_int_part (String c r +:+ rest) = Some (String c r, rest).
Proof.
  intros Hc Hr Hz Hrest. cbn [String.append scan_int_part].
  destruct (Ascii.eqb_spec c "0") as [E | _].
  - rewrite (Hz E). reflexivity.
  - rewrite Hc, span_digits_stop by assumption. reflexivity.
Qed.

Lemma scan_frac_none rest : after_value rest -> scan_frac rest = Some (EmptyString, rest).
Proof. intros (c & r & -> & [-> | ->]); reflexivity. Qed.

Lemma scan_exp_none rest : after_value rest -> scan_exp rest = Some (EmptyString, rest).
Proof. intros (c & r & -> & [-> | ->]); reflexivity. Qed.

Lemma Itoa_cases i :
  exists c r, is_digit c = true /\ all_digits r = true
    /\ (c = "0"%char -> r = EmptyString)
    /\ (Itoa i = String c r \/ Itoa i = String "-" (String c r)).
Proof.
  unfold Itoa. destruct (Z.ltb_spec i 0) as [Hneg | Hpos].
  - destruct (FormatUint (- i)) as [| c r] eqn:E.
    + unfold FormatUint in E.
      destruct (format_digits_shape (Z.to_nat (Z.log2 (- i))) (- i) EmptyString)
        as (c & ds & E' & _); [lia | congruence].
    + destruct (FormatUint_head (- i) c r ltac:(lia) E) as (Hc & Hr & _ & _ & Hz).
      exists c, r. auto.
  - destruct (FormatUint i) as [| c r] eqn:E.
    + unfold FormatUint in E.
      destruct (format_digits_shape (Z.to_nat (Z.log2 i)) i EmptyString)
        as (c & ds & E' & _); [lia | congruence].
    + destruct (FormatUint_head i c r Hpos E) as (Hc & Hr & _ & _ & Hz).
      exists c, r. auto.
Qed.

Lemma digit_not_minus c : is_digit c = true -> Ascii.eqb c "-" = false.
Proof.
  destruct c as [b0 b1 b2 b3 b4 b5 b6 b7];
    destruct b0, b1, b2, b3, b4, b5, b6, b7; intros H;
    solve [reflexivity | discriminate H].
Qed.

Lemma scan_number_Itoa i rest :
  after_value rest -> scan_number (Itoa i +:+ rest) = Some (Itoa i, rest).
Proof.
  intros Hrest.
  destruct (Itoa_cases i) as (c & r & Hc & Hr & Hz & [E | E]); rewrite E.
  - unfold scan_number. cbn [String.append]. rewrite (digit_not_minus c Hc).
    change (String c (r +:+ rest)) with (String c r +:+ rest).
    rewrite scan_int_part_digits, scan_frac_none, scan_exp_none by assumption.
    cbn [String.append]. rewrite !append_nil_r. reflexivity.
  - unfold scan_number. cbn [String.append Ascii.eqb Bool.eqb].
    change (String c (r +:+ rest)) with (String c r +:+ rest).
    rewrite scan_int_part_digits, scan_frac_none, scan_exp_none by assumption.
    cbn [String.append]. rewrite !append_nil_r. reflexivity.
Qed.

(** A character that starts a number starts no other kind of value. *)
Lemma number_start c :
  is_digit c = true \/ c = "-"%char ->
  is_ws c = false /\ Ascii.eqb c "{" = false /\ Ascii.eqb c "[" = false
  /\ Ascii.eqb c dquote = false /\ Ascii.eqb c "t" = false
  /\ Ascii.eqb c "f" = false /\ Ascii.eqb c "n" = false.
Proof.
  intros [H | ->]; [| repeat split; reflexivity].
  destruct c as [b0 b1 b2 b3 b4 b5 b6 b7];
    destruct b0, b1, b2, b3, b4, b5, b6, b7;
    solve [discriminate H | repeat split; reflexivity].
Qed.

Lemma parse_value_Itoa f i rest :
  after_value rest ->
  parse_value (S f) (Itoa i +:+ rest) = Some (JNum (Itoa i), rest).
Proof.
  intros Hrest. pose proof (scan_number_Itoa i rest Hrest) as Hs.
  destruct (Itoa_cases i) as (c & r & Hc & Hr & Hz & [E | E]);
    rewrite E in *; cbn [String.append] in *.
  - destruct (number_start c (or_introl Hc)) as (W & A & B & C & D & F & G).
    cbn [parse_value skip_ws]. rewrite W, A, B, C, D, F, G, Hs. reflexivity.
  - cbn [parse_value skip_ws is_ws Ascii.eqb Bool.eqb orb].
    unfold dquote. cbn [Ascii.eqb Bool.eqb]. rewrite Hs. reflexivity.
Qed.

Lemma parse_value_string f s rest :
  ValidString s = true ->
  parse_value (S f) (String dquote (escape s +:+ String dquote rest))
  = Some (JStr s, rest).
Proof.
  intros Hs. cbn [parse_value skip_ws]. unfold dquote at 1 2 3 4.
  cbn [is_ws Ascii.eqb Bool.eqb orb]. fold dquote.
  rewrite scan_string_escape by exact Hs. reflexivity.
Qed.

Lemma parse_members_last f k text v rest :
  ValidString k = true ->
  parse_value f text = Some (v, String "}" rest) ->
  parse_members (S f) (String dquote (escape k +:+ String dquote (String ":" text)))
  = Some ([(k, v)], rest).
Proof.
  intros Hk Hv. cbn [parse_members skip_ws]. unfold dquote at 1 2 3.
  cbn [is_ws Ascii.eqb Bool.eqb orb]. fold dquote.
  rewrite scan_string_escape by exact Hk.
  cbn [skip_ws is_ws Ascii.eqb Bool.eqb orb].
  rewrite Hv. reflexivity.
Qed.

Lemma parse_members_cons f k text v rest m rest' :
  ValidString k = true ->
  parse_value f text = Some (v, String "," rest) ->
  parse_members f rest = Some (m, rest') ->
  parse_members (S f) (String dquote (escape k +:+ String dquote (String ":" text)))
  = Some ((k, v) :: m, rest').
Proof.
  intros Hk Hv Hm. cbn [parse_members skip_ws]. unfold dquote at 1 2 3.
  cbn [is_ws Ascii.eqb Bool.eqb orb]. fold dquote.
  rewrite scan_string_escape by exact Hk.
  cbn [skip_ws is_ws Ascii.eqb Bool.eqb orb].
  rewrite Hv. cbn [skip_ws is_ws Ascii.eqb Bool.eqb orb]. rewrite Hm.
  reflexivity.
Qed.

Lemma parse_value_object f text m rest :
  parse_members f (String dquote text) = Some (m, rest) ->
  parse_value (S f) (String "{" (String dquote text)) = Some (JObj m, rest).
Proof.
  intros Hm. unfold dquote in *.
  cbn [parse_value skip_ws is_ws Ascii.eqb Bool.eqb orb].
  rewrite Hm. reflexivity.
Qed.

(** The strings the parser returns are well-formed UTF-8. *)
Lemma parse_value_valid f t v rest :
  parse_value f t = Some (v, rest) -> valid_string v.
Proof.
  destruct f as [| f]; [intros H; discriminate H |].
  cbn [parse_value]. unfold literal.
  destruct v; try (intros _; exact I).
  intros H. repeat case_match; try discriminate H.
  inversion H; subst. eapply scan_string_ValidString. eassumption.
Qed.

Lemma parse_members_valid f : forall t m rest,
  parse_members f t = Some (m, rest) -> valid_members m.
Proof.
  induction f as [| f IH]; intros t m rest H; [discriminate H |].
  cbn [parse_members] in H.
  repeat case_match; try discriminate H; inversion H; subst.
  - constructor; [| eapply IH; eassumption].
    eapply parse_value_valid; eassumption.
  - constructor; [| constructor]. eapply parse_value_valid; eassumption.
Qed.

Lemma parse_object_valid data m : parse data = Some (JObj m) -> valid_members m.
Proof.
  unfold parse.
  destruct (parse_value _ data) as [[v r] |] eqn:E; [| intros H; discriminate H].
  destruct (skip_ws r); intros H; inversion H; subst.
  cbn [parse_value] in E. unfold literal in E.
  repeat case_match; try discriminate E; inversion E; subst.
  - constructor.
  - eapply parse_members_valid; eassumption.
Qed.

End JsonFacts.

Section CoggiaCodec.
Import Chars Strconv Json Coggia.

Lemma Marshal_text w :
  fst (json_Marshal w)
  = String "{" (String dquote (escape "address" +:+ String dquote (String ":"
      (String dquote (escape (Address w) +:+ String dquote (String ","
        (String dquote (escape "balance" +:+ String dquote (String ":"
          (Itoa (Balance w) +:+ "}"))))))))))%string.
Proof.
  destruct w as [a b]. unfold json_Marshal, Marshal.
  replace (List.filter exported (fields (mkWallet a b)))
    with (fields (mkWallet a b)) by reflexivity.
  unfold fields. cbn [fst map join_comma Address Balance].
  unfold encode_field, encode_val, quote, q. cbn [json_name fval].
  repeat first [rewrite append_assoc | progress cbn [String.append]].
  reflexivity.
Qed.

Lemma parse_Marshal w :
  Utf8.ValidString (Address w) = true ->
  parse (fst (json_Marshal w))
  = Some (JObj [("address", JStr (Address w));
                ("balance", JNum (Itoa (Balance w)))]).
Proof.
  intros Hw. unfold parse. rewrite Marshal_text.
  match goal with
  | |- context [parse_value (S (String.length ?t))] =>
      assert (Hf : exists f, String.length t = S (S (S f)))
  end.
  { replace (escape "address") with "address" by reflexivity.
    cbn [String.append String.length]. eexists; reflexivity. }
  destruct Hf as [f ->].
  rewrite (parse_value_object _ _
             [("address", JStr (Address w));
              ("balance", JNum (Itoa (Balance w)))] EmptyString).
  - reflexivity.
  - eapply parse_members_cons.
    + reflexivity.
    + apply parse_value_string. exact Hw.
    + apply parse_members_last; [reflexivity |]. apply parse_value_Itoa.
      exists "}"%char, EmptyString. auto.
Qed.

Lemma field_index_address v1 v2 :
  field_index "address"
    [mkField "Address" "address" v1; mkField "Balance" "balance" v2]
  = Some 0%nat.
Proof. reflexivity. Qed.

Lemma field_index_balance v1 v2 :
  field_index "balance"
    [mkField "Address" "address" v1; mkField "Balance" "balance" v2]
  = Some 1%nat.
Proof. reflexivity. Qed.

(** Decoding what [json.Marshal] wrote for a wallet with a well-formed
    address gives the wallet back, whatever the wallet decoded into held
    before. *)
Lemma Unmarshal_Marshal w w0 :
  Utf8.ValidString (Address w) = true ->
  GoInt.in_range (Balance w) ->
  json_Unmarshal (fst (json_Marshal w)) w0 = (w, None).
Proof.
  intros Hw Hr. unfold json_Unmarshal, Unmarshal.
  rewrite parse_Marshal by exact Hw.
  destruct w as [a b], w0 as [a0 b0]. cbn [Address Balance] in *.
  unfold fields. cbn [Address Balance].
  cbn [assign_members]. rewrite field_index_address.
  cbn [lookup list_lookup set_field fval insert list_insert
       go_name json_name].
  rewrite field_index_balance.
  cbn [lookup list_lookup set_field fval insert list_insert
       go_name json_name].
  rewrite (ParseInt_Itoa b Hr).
  reflexivity.
Qed.

End CoggiaCodec.

Section AtoiFacts.
Import Chars Strconv.

Lemma parse_uint_loop_range s : forall n,
  0 <= n <= GoInt.MaxUint64 ->
  0 <= fst (parse_uint_loop s n) <= GoInt.MaxUint64.
Proof.
  induction s as [| d s IH]; intros n Hn; cbn [parse_uint_loop fst]; [exact Hn |].
  destruct (is_digit d) eqn:Hd; [| cbn [fst]; unfold GoInt.MaxUint64; lia].
  unfold is_digit in Hd. apply andb_prop in Hd as [H1 H2].
  apply Z.leb_le in H1, H2.
  destruct (Z.ltb_spec GoInt.MaxUint64 (n * 10 + (code d - 48))).
  - cbn [fst]. unfold GoInt.MaxUint64. lia.
  - apply IH. lia.
Qed.

Lemma ParseUint_range s : 0 <= fst (ParseUint s) <= GoInt.MaxUint64.
Proof.
  destruct s; [cbn; unfold GoInt.MaxUint64; lia |].
  apply parse_uint_loop_range. unfold GoInt.MaxUint64. lia.
Qed.

(** Whatever the text, the value [Atoi] returns is an [int]. *)
Lemma Atoi_in_range s : GoInt.in_range (fst (Atoi s)).
Proof.
  unfold Atoi, ParseInt. destruct s as [| c r].
  { cbn. unfold GoInt.in_range, GoInt.MinInt, GoInt.MaxInt. lia. }
  set (s1 := if Ascii.eqb c "+" then r else if Ascii.eqb c "-" then r else String c r).
  pose proof (ParseUint_range s1) as Hu.
  destruct (ParseUint s1) as [un [[] |]]; cbn [fst] in *;
    try (unfold GoInt.in_range, GoInt.MinInt, GoInt.MaxInt; lia);
    destruct (Ascii.eqb c "-"); cbn [negb andb];
    repeat match goal with
           | |- context [Z.leb ?a ?b] => destruct (Z.leb_spec a b)
           | |- context [Z.ltb ?a ?b] => destruct (Z.ltb_spec a b)
           end; cbn [fst];
    try apply wrap_in_range;
    unfold GoInt.in_range, GoInt.MinInt, GoInt.MaxInt; lia.
Qed.


End AtoiFacts.

Section CoggiaDecodedWallets.
Import Chars Strconv Json Shim.

Lemma find_index_bound {A} (p : A -> bool) l i :
  find_index p l = Some i -> (i < length l)%nat.
Proof.
  revert i. induction l as [| x l IH]; intros i; cbn [find_index length];
    [intros H; discriminate H |].
  destruct (p x); [intros H; inversion H; lia |].
  destruct (find_index p l) as [j |]; cbn [option_map]; intros H; inversion H.
  specialize (IH j eq_refl). lia.
Qed.

Lemma field_index_bound key st i :
  field_index key st = Some i -> (i < length st)%nat.
Proof.
  unfold field_index.
  destruct (find_index _ st) as [j |] eqn:E.
  - intros H. inversion H; subst. eapply find_index_bound; exact E.
  - apply find_index_bound.
Qed.

Lemma set_field_coggia v a b i f :
  valid_string v -> Utf8.ValidString a = true -> GoInt.in_range b ->
  Coggia.fields (Coggia.mkWallet a b) !! i = Some f ->
  Coggia.decoded_fields
    (<[i := fst (set_field v f)]> (Coggia.fields (Coggia.mkWallet a b))).
Proof.
  intros Hv Ha Hb Hf. unfold Coggia.fields in *.
  cbn [Coggia.Address Coggia.Balance] in *.
  destruct i as [| [| i]]; cbn [lookup list_lookup] in Hf; inversion Hf; subst f;
    cbn [insert list_insert].
  - destruct v; cbn [set_field fval fst go_name json_name];
      try (exists a, b; split; [reflexivity | split; assumption]).
    exists s, b. split; [reflexivity | split; [exact Hv | exact Hb]].
  - destruct v; cbn [set_field fval fst go_name json_name];
      try (exists a, b; split; [reflexivity | split; assumption]).
    pose proof (Atoi_in_range lit) as Hr. unfold Atoi in Hr.
    destruct (ParseInt lit) as [z [e |]]; cbn [fst] in *.
    + exists a, b. split; [reflexivity | split; assumption].
    + exists a, z. split; [reflexivity | split; assumption].
Qed.

Lemma assign_members_coggia m : forall fs err,
  valid_members m -> Coggia.decoded_fields fs ->
  Coggia.decoded_fields (fst (assign_members m fs err)).
Proof.
  induction m as [| [k v] m IH]; intros fs err Hm Hfs; [exact Hfs |].
  apply Forall_cons in Hm as [Hv Hm]. cbn [snd] in Hv.
  cbn [assign_members].
  destruct (field_index k fs) as [i |] eqn:Ei; [| apply IH; assumption].
  destruct (fs !! i) as [f |] eqn:Ef; [| apply IH; assumption].
  destruct (set_field v f) as [f' e] eqn:Es.
  apply IH; [exact Hm |]. destruct Hfs as (a & b & -> & Ha & Hb).
  replace f' with (fst (set_field v f)) by (rewrite Es; reflexivity).
  apply set_field_coggia; assumption.
Qed.

(** Every wallet that decodes from a record has a well-formed address and
    a balance in the range of [int]. *)
Lemma Coggia_decoded data w e :
  Coggia.json_Unmarshal data (Coggia.mkWallet EmptyString 0) = (w, e) ->
  Utf8.ValidString (Coggia.Address w) = true /\ GoInt.in_range (Coggia.Balance w).
Proof.
  unfold Coggia.json_Unmarshal.
  assert (H0 : Coggia.decoded_fields
                 (Coggia.fields (Coggia.mkWallet EmptyString 0))).
  { exists EmptyString, 0. split; [reflexivity |]. split; [reflexivity |].
    unfold GoInt.in_range, GoInt.MinInt, GoInt.MaxInt. lia. }
  assert (H : Coggia.decoded_fields
                (fst (Unmarshal data (Coggia.fields (Coggia.mkWallet EmptyString 0))))).
  { unfold Unmarshal. destruct (parse data) as [[] |] eqn:Ep; cbn [fst];
      try exact H0.
    apply assign_members_coggia; [| exact H0].
    eapply parse_object_valid. exact Ep. }
  destruct (Unmarshal _ _) as [fs err]. cbn [fst] in H.
  destruct H as (a & b & -> & Ha & Hb). intros E. inversion E; subst.
  split; assumption.
Qed.

Lemma Coggia_decoded_in_range data w e :
  Coggia.json_Unmarshal data (Coggia.mkWallet EmptyString 0) = (w, e) ->
  GoInt.in_range (Coggia.Balance w).
Proof. intros H. apply (Coggia_decoded _ _ _ H). Qed.

Lemma Coggia_wallet_at_decoded st k w :
  Coggia.wallet_at st k = Some w ->
  Utf8.ValidString (Coggia.Address w) = true /\ GoInt.in_range (Coggia.Balance w).
Proof.
  unfold Coggia.wallet_at.
  destruct (State st !! k) as [data |]; [| intros H; discriminate H].
  destruct (Coggia.json_Unmarshal data _) as [w' [e |]] eqn:E;
    intros H; inversion H; subst.
  eapply Coggia_decoded. exact E.
Qed.

Lemma Coggia_wallet_at_in_range st k w :
  Coggia.wallet_at st k = Some w -> GoInt.in_range (Coggia.Balance w).
Proof. intros H. apply (Coggia_wallet_at_decoded _ _ _ H). Qed.

Lemma Coggia_wallet_at_valid st k w :
  Coggia.wallet_at st k = Some w -> Utf8.ValidString (Coggia.Address w) = true.
Proof. intros H. apply (Coggia_wallet_at_decoded _ _ _ H). Qed.

End CoggiaDecodedWallets.

(** The address of a wallet rebuilt from a decoded one is well-formed. *)
Ltac decoded_address :=
  cbn [Coggia.Address]; eapply Coggia_wallet_at_valid; eassumption.

Section CoggiaTransfer.
Import Chars Strconv Shim Coggia.

#[local] Arguments json_Marshal : simpl never.
#[local] Arguments json_Unmarshal : simpl never.

(** What a successful transfer has done: both records were there and
    decoded, and the ledger afterwards is the ledger before with the two
    re-encoded wallets put at the two keys, the receiving one first. *)
Lemma transferFunds_success args st st' p :
  transferFunds args st = (Success p, st') ->
  exists from to amount rest F T,
    args = from :: to :: amount :: rest
    /\ wallet_at st from = Some F /\ wallet_at st to = Some T
    /\ State st' =
         <[from := fst (json_Marshal
              (mkWallet (Address F)
                 (GoInt.sub (Balance F) (fst (Atoi amount)))))]>
         (<[to := fst (json_Marshal
              (mkWallet (Address T)
                 (GoInt.add (Balance T) (fst (Atoi amount)))))]> (State st)).
Proof.
  destruct args as [| from [| to [| amount rest]]];
    try (intros H; discriminate H).
  unfold transferFunds, wallet_at, bind, ret, GetState, PutState.
  destruct (Atoi amount) as [transfer aerr] eqn:EA.
  cbn [State Log Fault record with_state fst].
  set (marshal := json_Marshal). clearbody marshal.
  intros H.
  repeat (case_match; simplify_eq/=;
          cbn [State Log Fault record with_state fst] in * ).
  exists from, to, amount, rest.
  repeat match goal with
         | E : State st !! _ = _ |- _ => rewrite E; clear E
         | E : json_Unmarshal _ _ = _ |- _ => rewrite E; clear E
         end.
  do 2 eexists. repeat split; try reflexivity.
  rewrite EA. cbn [fst].
  repeat match goal with
         | E : marshal _ = _ |- _ => rewrite E; clear E
         end.
  reflexivity.
Qed.

End CoggiaTransfer.

Section HalleyCodec.
Import Chars Strconv Json Halley.

(** No field of the Halley wallet is exported: every wallet is written as
    the empty object. *)
Lemma Halley_Marshal_empty w :
  json_Marshal w = (String "{" (String "}" EmptyString), None).
Proof. destruct w. reflexivity. Qed.

Lemma Halley_field_index k w : field_index k (fields w) = None.
Proof. reflexivity. Qed.

Lemma Halley_assign_members m w : forall err,
  assign_members m (fields w) err = (fields w, err).
Proof.
  induction m as [| [k v] m IH]; intros err; [reflexivity|].
  cbn [assign_members]. rewrite Halley_field_index. apply IH.
Qed.

Lemma Halley_of_fields w : of_fields w (fields w) = w.
Proof. destruct w. reflexivity. Qed.

(** Decoding never changes a Halley wallet. *)
Lemma Halley_Unmarshal_unchanged data w : fst (json_Unmarshal data w) = w.
Proof.
  unfold json_Unmarshal, Unmarshal.
  destruct (parse data) as [[] |]; try rewrite Halley_assign_members;
    cbn [fst]; apply Halley_of_fields.
Qed.

Lemma Halley_Unmarshal_nil w : snd (json_Unmarshal EmptyString w) = Some SyntaxError.
Proof. reflexivity. Qed.

Lemma Halley_Unmarshal_empty_object w :
  json_Unmarshal (String "{" (String "}" EmptyString)) w = (w, None).
Proof. destruct w. reflexivity. Qed.

End HalleyCodec.

Section HalleyTransfer.
Import Chars Strconv Shim Halley.

(** X24: whatever the record, a wallet that the Halley contract decodes
    from it has the empty id, balance 0 and the empty owner. *)
Lemma Halley_wallet_at_zero st k w : wallet_at st k = Some w -> w = zero_wallet.
Proof.
  unfold wallet_at. destruct (State st !! k) as [data |]; [| discriminate].
  pose proof (Halley_Unmarshal_unchanged data zero_wallet) as HU.
  fold zero_wallet. destruct (json_Unmarshal data zero_wallet) as [w' [e |]];
    [discriminate |]. cbn [fst] in HU. congruence.
Qed.

(** What a successful Halley transfer has done: both records were there
    and decoded, and the only write went to the empty key, the [id] of
    the two decoded wallets. *)
Lemma Halley_transferFunds_success args st st' p :
  transferFunds args st = (Success p, st') ->
  exists A B n rest,
    args = A :: B :: n :: rest
    /\ wallet_at st A = Some zero_wallet /\ wallet_at st B = Some zero_wallet
    /\ State st' = <[EmptyString := empty_object]> (State st).
Proof.
  destruct args as [| A [| B [| n rest]]];
    try (intros H; discriminate H).
  unfold transferFunds, wallet_at, bind, ret, GetState, PutState.
  fold zero_wallet.
  cbn [State Log Fault record with_state fst].
  pose proof Halley_Unmarshal_unchanged as HU.
  pose proof Halley_Unmarshal_nil as HN.
  pose proof Halley_Marshal_empty as HM.
  set (marshal := json_Marshal) in *. clearbody marshal.
  set (unmarshal := json_Unmarshal) in *. clearbody unmarshal.
  intros H.
  repeat (case_match; simplify_eq/=;
          cbn [State Log Fault record with_state fst] in * ).
  exists A, B, n, rest.
  repeat match goal with
         | E : marshal ?w = _ |- _ => rewrite HM in E; simplify_eq
         end.
  repeat match goal with
         | E : unmarshal ?d ?w = (?w', None) |- _ =>
             is_var w';
             assert (w' = w) by (rewrite <- (HU d w), E; reflexivity);
             subst w'
         end.
  cbn [id zero_wallet] in *. rewrite insert_insert_eq.
  destruct (State st !! B) as [dataB |] eqn:EB; cbn [bytes] in *.
  - simplify_eq.
    rewrite H0.
    repeat match goal with
           | E : unmarshal _ _ = _ |- _ => rewrite E; clear E
           end.
    auto.
  - match goal with
    | E : unmarshal EmptyString ?w = _ |- _ =>
        pose proof (HN w) as HN'; rewrite E in HN'; discriminate HN'
    end.
Qed.

End HalleyTransfer.

Section SumInvariant.
Import Chars Strconv Shim.

Lemma Coggia_wallet_at_insert_eq (st' : Stub) k w m :
  State st' = <[k := fst (Coggia.json_Marshal w)]> m ->
  Utf8.ValidString (Coggia.Address w) = true ->
  GoInt.in_range (Coggia.Balance w) ->
  Coggia.wallet_at st' k = Some w.
Proof.
  intros E Hv Hr. unfold Coggia.wallet_at.
  rewrite E, lookup_insert_eq, Unmarshal_Marshal by assumption. reflexivity.
Qed.

Lemma Coggia_transfer_balances A B n rest st st' p :
  A <> B ->
  Coggia.transferFunds (A :: B :: n :: rest) st = (Success p, st') ->
  exists F T,
    Coggia.wallet_at st A = Some F /\ Coggia.wallet_at st B = Some T
    /\ Coggia.wallet_at st' A
       = Some (Coggia.mkWallet (Coggia.Address F)
                 (GoInt.sub (Coggia.Balance F) (fst (Atoi n))))
    /\ Coggia.wallet_at st' B
       = Some (Coggia.mkWallet (Coggia.Address T)
                 (GoInt.add (Coggia.Balance T) (fst (Atoi n)))).
Proof.
  intros Hne H.
  destruct (transferFunds_success _ _ _ _ H)
    as (from & to & amount & rest' & F & T & Ea & HF & HT & HS).
  simplify_eq. exists F, T. repeat split; try assumption.
  - eapply Coggia_wallet_at_insert_eq;
      [exact HS | exact (Coggia_wallet_at_valid _ _ _ HF) | apply wrap_in_range].
  - unfold Coggia.wallet_at. rewrite HS, lookup_insert_ne by assumption.
    rewrite lookup_insert_eq, Unmarshal_Marshal;
      [reflexivity | exact (Coggia_wallet_at_valid _ _ _ HT) | apply wrap_in_range].
Qed.

End SumInvariant.

Section SumInvariantClaim.
Import Chars Strconv Shim Ledger.

(** C1, as stated, fails: with the sums taken over the integers, a
    transfer that overflows the receiving balance changes the sum.  The
    ledger holds wallet A with balance 0 and wallet B with the largest
    [int]; transferring 1 from A to B succeeds and leaves -1 at A and the
    smallest [int] at B. *)
Lemma transferFunds_sum_overflow :
  let st := Examples.brim in
  let r := transferFunds SimpleChaincode ["A"; "B"; "1"] st in
  fst r = Success None
  /\ balance_at SimpleChaincode st "A" = Some 0
  /\ balance_at SimpleChaincode st "B" = Some 9223372036854775807
  /\ balance_at SimpleChaincode (snd r) "A" = Some (-1)
  /\ balance_at SimpleChaincode (snd r) "B" = Some (-9223372036854775808)
  /\ -1 + -9223372036854775808 <> 0 + 9223372036854775807.
Proof.
  vm_compute. repeat split; intros H; discriminate H.
Qed.

(** C1 (amended): for distinct keys A and B, after a successful
    [transferFunds(A, B, n)] of either contract both wallets still decode,
    and the sum of their balances is the sum before in Go's [int]
    arithmetic (addition modulo 2^64); the two sums are equal as integers
    whenever neither the debit nor the credit leaves the range of [int]. *)
Theorem transferFunds_sum_invariant c A B n rest st st' p :
  A <> B ->
  transferFunds c (A :: B :: n :: rest) st = (Success p, st') ->
  exists a b a' b',
    balance_at c st A = Some a /\ balance_at c st B = Some b
    /\ balance_at c st' A = Some a' /\ balance_at c st' B = Some b'
    /\ GoInt.add a' b' = GoInt.add a b
    /\ (GoInt.in_range (a - fst (Atoi n)) ->
        GoInt.in_range (b + fst (Atoi n)) -> a' + b' = a + b).
Proof.
  intros Hne H. destruct c; cbn [transferFunds balance_at] in *.
  - destruct (Coggia_transfer_balances _ _ _ _ _ _ _ Hne H)
      as (F & T & HF & HT & HF' & HT').
    unfold Coggia.balance_at. rewrite HF, HT, HF', HT'. cbn [option_map].
    do 4 eexists. repeat split; try reflexivity.
    + cbn [Coggia.Balance]. apply add_sub_transfer.
    + cbn [Coggia.Balance]. intros Ha Hb. unfold GoInt.sub, GoInt.add.
      rewrite !wrap_id by assumption. lia.
  - destruct (Halley_transferFunds_success _ _ _ _ H)
      as (A' & B' & n' & rest' & Ea & HA & HB & HS).
    simplify_eq.
    assert (HW : forall k, Halley.wallet_at st k = Some Halley.zero_wallet ->
                  Halley.wallet_at st' k = Some Halley.zero_wallet).
    { intros k Hk. unfold Halley.wallet_at in *. rewrite HS.
      destruct (decide (k = EmptyString)) as [-> | Hk'].
      - rewrite lookup_insert_eq. fold Halley.zero_wallet.
        unfold Halley.empty_object.
        rewrite Halley_Unmarshal_empty_object. reflexivity.
      - rewrite lookup_insert_ne by congruence. exact Hk. }
    unfold Halley.balance_at. rewrite (HW _ HA), (HW _ HB), HA, HB.
    cbn [option_map]. do 4 eexists. repeat split; reflexivity.
Qed.

Lemma transferFunds_sum_invariant_witness :
  let st := Examples.pair in
  let st' := snd (transferFunds SimpleChaincode ["a"; "b"; "3"] st) in
  "a" <> "b"
  /\ transferFunds SimpleChaincode ["a"; "b"; "3"] st = (Success None, st')
  /\ exists a b a' b',
      balance_at SimpleChaincode st "a" = Some a
      /\ balance_at SimpleChaincode st "b" = Some b
      /\ balance_at SimpleChaincode st' "a" = Some a'
      /\ balance_at SimpleChaincode st' "b" = Some b'
      /\ GoInt.add a' b' = GoInt.add a b
      /\ (GoInt.in_range (a - fst (Atoi "3")) ->
          GoInt.in_range (b + fst (Atoi "3")) -> a' + b' = a + b).
Proof.
  assert (Hne : "a" <> "b") by discriminate.
  assert (Hrun : transferFunds SimpleChaincode ["a"; "b"; "3"] Examples.pair
                 = (Success None,
                    snd (transferFunds SimpleChaincode ["a"; "b"; "3"]
                           Examples.pair)))
    by (vm_compute; reflexivity).
  split; [exact Hne | split; [exact Hrun |]].
  exact (transferFunds_sum_invariant SimpleChaincode "a" "b" "3" []
           Examples.pair _ None Hne Hrun).
Defined.

End SumInvariantClaim.

Section CompositeKeys.
Import Chars Shim.

Lemma length_append (a b : string) :
  String.length (a +:+ b) = (String.length a + String.length b)%nat.
Proof. induction a as [| c a IH]; simpl; [reflexivity | now rewrite IH]. Qed.

Lemma CreateCompositeKey_two objectType a b k :
  CreateCompositeKey objectType [a; b] = (k, None) ->
  k = (String NUL EmptyString +:+ objectType +:+ String NUL EmptyString)
        +:+ a +:+ String NUL (b +:+ String NUL EmptyString).
Proof.
  unfold CreateCompositeKey.
  destruct (validateCompositeKeyAttribute objectType); [intros H; discriminate H|].
  cbn [append_attributes].
  destruct (validateCompositeKeyAttribute a); [intros H; discriminate H|].
  destruct (validateCompositeKeyAttribute b); [intros H; discriminate H|].
  intros H. inversion H.
  repeat first [rewrite append_assoc | progress cbn [String.append]].
  reflexivity.
Qed.

(** A composite key is made of well-formed attributes only. *)
Lemma CreateCompositeKey_valid objectType a b k :
  CreateCompositeKey objectType [a; b] = (k, None) ->
  Utf8.ValidString a = true.
Proof.
  unfold CreateCompositeKey.
  destruct (validateCompositeKeyAttribute objectType); [intros H; discriminate H|].
  cbn [append_attributes]. unfold validateCompositeKeyAttribute at 1.
  destruct (Utf8.ValidString a); [reflexivity | intros H; discriminate H].
Qed.

(** The index key made for a wallet is never the wallet's own key. *)
Lemma CreateCompositeKey_fresh objectType a b k :
  CreateCompositeKey objectType [a; b] = (k, None) -> k <> a.
Proof.
  intros H E. apply CreateCompositeKey_two in H. rewrite E in H.
  apply (f_equal String.length) in H.
  repeat (rewrite length_append in H || cbn [String.length String.append] in H).
  lia.
Qed.

End CompositeKeys.

Section CreateUniqueness.
Import Chars Strconv Shim.

Lemma Coggia_Marshal_pair w :
  Coggia.json_Marshal w = (fst (Coggia.json_Marshal w), None).
Proof. reflexivity. Qed.

(** [initWallet] with a non-empty address puts the new record at that
    address, whatever was there, and never touches it again. *)
Lemma initWallet_puts id b st :
  id <> EmptyString ->
  Fault st (Log st)
    (OpPut id (fst (Coggia.json_Marshal (Coggia.mkWallet id (fst (Atoi b))))))
  = None ->
  State (snd (Coggia.initWallet [id; b] st)) !! id
  = Some (fst (Coggia.json_Marshal (Coggia.mkWallet id (fst (Atoi b))))).
Proof.
  intros Hid Hput. unfold Coggia.initWallet.
  destruct id as [| c id']; [congruence |].
  cbn [String.length Nat.leb orb].
  destruct (Atoi b) as [balance e]. cbn [fst] in *.
  rewrite Coggia_Marshal_pair.
  set (data := fst (Coggia.json_Marshal _)) in *.
  unfold bind, ret, PutState at 1. rewrite Hput. clear Hput.
  cbn [Coggia.Address Coggia.Balance].
  destruct (CreateCompositeKey _ _) as [k [err |]] eqn:Ek.
  - cbn [snd State record with_state]. apply lookup_insert_eq.
  - apply CreateCompositeKey_fresh in Ek.
    unfold PutState. cbn [State Log Fault record with_state].
    destruct (Fault st _ _); cbn [snd State record with_state].
    + apply lookup_insert_eq.
    + rewrite lookup_insert_ne by exact Ek. apply lookup_insert_eq.
Qed.

(** C2, as stated, fails for [initWallet]: a second [initWallet] with the
    address of an existing wallet succeeds and replaces the record. *)
Lemma initWallet_overwrites :
  let st := snd (Coggia.initWallet ["a"; "5"] (Ledger.reliable ∅)) in
  let r := Coggia.initWallet ["a"; "9"] st in
  State st !! "a" = Some (fst (Coggia.json_Marshal (Coggia.mkWallet "a" 5)))
  /\ fst r = Success None
  /\ State (snd r) !! "a"
     = Some (fst (Coggia.json_Marshal (Coggia.mkWallet "a" 9)))
  /\ State (snd r) !! "a" <> State st !! "a".
Proof.
  vm_compute. repeat split. intros H. discriminate H.
Qed.

(** C2 (amended): when a record exists at [id], a [createWallet] for that
    id with three arguments and a balance that parses, whose read of the
    ledger does not fail, answers with the error "This wallet already
    exists" and only reads the ledger: the records are unchanged.
    [initWallet] makes no such check: with a non-empty address it writes
    the new record over the one that was there. *)
Theorem create_on_existing_id id b o st data :
  State st !! id = Some data ->
  snd (Atoi b) = None ->
  Fault st (Log st) (OpGet id) = None ->
  (Halley.createWallet [id; b; o] st
   = (Error ("This wallet already exists: " +:+ id), record (OpGet id) st)
   /\ State (record (OpGet id) st) = State st)
  /\ (id <> EmptyString ->
      Fault st (Log st)
        (OpPut id (fst (Coggia.json_Marshal (Coggia.mkWallet id (fst (Atoi b))))))
      = None ->
      State (snd (Coggia.initWallet [id; b] st)) !! id
      = Some (fst (Coggia.json_Marshal (Coggia.mkWallet id (fst (Atoi b)))))).
Proof.
  intros Hdata Hb Hget. split; [split; [| reflexivity] | apply initWallet_puts].
  unfold Halley.createWallet. destruct (Atoi b) as [balance e].
  cbn [snd] in Hb. subst e.
  unfold bind, ret, GetState. rewrite Hget, Hdata. reflexivity.
Qed.

Lemma create_on_existing_id_witness :
  let st := snd (Halley.createWallet ["w1"; "100"; "alice"] (Ledger.reliable ∅)) in
  State st !! "w1" = Some Halley.empty_object
  /\ Halley.createWallet ["w1"; "7"; "bob"] st
     = (Error "This wallet already exists: w1", record (OpGet "w1") st)
  /\ State (record (OpGet "w1") st) = State st.
Proof.
  assert (Hdata : State (snd (Halley.createWallet ["w1"; "100"; "alice"]
                               (Ledger.reliable ∅))) !! "w1"
                  = Some Halley.empty_object) by (vm_compute; reflexivity).
  split; [exact Hdata |].
  exact (proj1 (create_on_existing_id "w1" "7" "bob" _ _ Hdata
                  eq_refl eq_refl)).
Defined.

End CreateUniqueness.

Section ReadAfterWrite.
Import Chars Strconv Shim.

(** Whatever [createWallet] is given, the record it writes is the empty
    object, which decodes to the wallet with empty id, balance 0 and empty
    owner. *)
Lemma createWallet_stores_empty_object id b o st st' p :
  Halley.createWallet [id; b; o] st = (Success p, st') ->
  State st' !! id = Some Halley.empty_object
  /\ Halley.wallet_at st' id = Some Halley.zero_wallet.
Proof.
  unfold Halley.createWallet, bind, ret, GetState, PutState.
  destruct (Atoi b) as [balance [e |]]; [intros H; discriminate H |].
  rewrite Halley_Marshal_empty.
  intros H.
  repeat (case_match; simplify_eq;
          cbn [State Log Fault record with_state] in * ).
  assert (E : State (record (OpPut id "{}")
                (with_state (<[id:="{}"]> (State st)) (record (OpGet id) st)))
              !! id = Some Halley.empty_object) by apply lookup_insert_eq.
  split; [exact E |]. unfold Halley.wallet_at. rewrite E.
  fold Halley.zero_wallet. unfold Halley.empty_object.
  rewrite Halley_Unmarshal_empty_object. reflexivity.
Qed.

(** C3, at the input of the specification: after
    [createWallet("w1", 100, "alice")] on an empty ledger the record at
    "w1" is the empty object; it decodes to the wallet with empty id,
    balance 0 and empty owner, not to the wallet created, and [queryWallet]
    returns that empty object in its envelope. *)
Theorem createWallet_w1_loses_fields :
  let r := Halley.createWallet ["w1"; "100"; "alice"] (Ledger.reliable ∅) in
  fst r = Success None
  /\ State (snd r) !! "w1" = Some Halley.empty_object
  /\ Halley.wallet_at (snd r) "w1" = Some (Halley.mkWallet EmptyString 0 EmptyString)
  /\ Halley.wallet_at (snd r) "w1" <> Some (Halley.mkWallet "w1" 100 "alice")
  /\ fst (Halley.queryWallet ["w1"] (snd r))
     = Success (Some ("{" +:+ q "ID" +:+ ":" +:+ q "w1" +:+ ","
                      +:+ q "RESULT" +:+ ":" +:+ q Halley.empty_object +:+ "}")).
Proof.
  vm_compute. repeat split. intros H. discriminate H.
Qed.

End ReadAfterWrite.

Section TransferNotFound.
Import Chars Strconv Shim.

(** X18: in [coggia.go] a missing record at either key stops the transfer
    with the not-found error, after reads only. *)
Lemma Coggia_transfer_not_found from to n rest st :
  Fault st (Log st) (OpGet from) = None ->
  Fault st (Log st ++ [OpGet from]) (OpGet to) = None ->
  State st !! from = None \/ State st !! to = None ->
  fst (Coggia.transferFunds (from :: to :: n :: rest) st)
  = Error "Wallet 1 doesn't exist"
  /\ State (snd (Coggia.transferFunds (from :: to :: n :: rest) st)) = State st.
Proof.
  intros Hf Ht Hmiss. unfold Coggia.transferFunds, bind, ret, GetState.
  destruct (Atoi n) as [transfer e]. rewrite Hf.
  destruct (State st !! from) as [dataF |] eqn:EF.
  - destruct Hmiss as [Hm | Hm]; [discriminate Hm |].
    cbn [State Log Fault record]. rewrite Ht, Hm. split; reflexivity.
  - split; reflexivity.
Qed.

(** The Halley contract reports a missing sending wallet. *)
Lemma Halley_transfer_from_not_found A B n rest st :
  Fault st (Log st) (OpGet A) = None ->
  State st !! A = None ->
  Halley.transferFunds (A :: B :: n :: rest) st
  = (Error "Wallet [FROM] does not exist", record (OpGet A) st).
Proof.
  intros Hf Hm. unfold Halley.transferFunds, bind, ret, GetState.
  rewrite Hf, Hm. reflexivity.
Qed.

(** X23: when only the receiving wallet is missing, the Halley contract
    tests the sending wallet's bytes a second time, goes on, and fails
    while decoding the bytes it did not get. *)
Lemma Halley_transfer_to_not_found A B n rest st dataA :
  Fault st (Log st) (OpGet A) = None ->
  Fault st (Log st ++ [OpGet A]) (OpGet B) = None ->
  State st !! A = Some dataA ->
  State st !! B = None ->
  fst (Halley.transferFunds (A :: B :: n :: rest) st)
  = Error "Failed to unmarshal wallet"
  /\ State (snd (Halley.transferFunds (A :: B :: n :: rest) st)) = State st.
Proof.
  intros Hf Ht HA HB. unfold Halley.transferFunds, bind, ret, GetState.
  rewrite Hf, HA. cbn [State Log Fault record]. rewrite Ht, HB.
  cbn [Halley.bytes].
  destruct (Halley.json_Unmarshal dataA _) as [from [e |]];
    [split; reflexivity |].
  pose proof (Halley_Unmarshal_nil (Halley.mkWallet EmptyString 0 EmptyString))
    as HN.
  destruct (Halley.json_Unmarshal EmptyString _) as [to [e |]];
    [split; reflexivity | discriminate HN].
Qed.

(** C4, at a failing input: the ledger holds wallet "w1" only; the Halley
    [transferFunds("w1", "nonexistent", 10)] leaves the ledger as it was,
    but its error is the one of a record that does not decode, not the one
    the handler has for a missing receiving wallet. *)
Theorem Halley_transfer_to_missing_wallet :
  let r := Halley.transferFunds ["w1"; "nonexistent"; "10"] Examples.halley_one in
  State Examples.halley_one !! "nonexistent" = None
  /\ fst r = Error "Failed to unmarshal wallet"
  /\ fst r <> Error "Wallet [TO] does not exist"
  /\ State (snd r) = State Examples.halley_one.
Proof.
  vm_compute. repeat split. intros H. discriminate H.
Qed.

End TransferNotFound.

Section TransferAmount.
Import Chars Strconv Shim.

Lemma writes_app l1 l2 : writes (l1 ++ l2) = writes l1 ++ writes l2.
Proof. apply List.filter_app. Qed.

Lemma writes_read_only l l' :
  writes l' = [] -> writes (l ++ l') = writes l.
Proof. intros H. rewrite writes_app, H. apply app_nil_r. Qed.

(** C5, as stated, fails.  In the Halley contract the amount is parsed
    after both records have been fetched and decoded: with a sending wallet
    that does not exist the answer to a non-numeric amount is the not-found
    error.  ([coggia.go] drops the error of [Atoi] and carries out a
    transfer of 0.) *)
Lemma transferFunds_bad_amount_not_validated :
  snd (Atoi "abc") = Some ErrSyntax
  /\ fst (Halley.transferFunds ["nonexistent"; "w1"; "abc"] Examples.halley_one)
     = Error "Wallet [FROM] does not exist"
  /\ fst (Coggia.transferFunds ["a"; "b"; "abc"] Examples.pair) = Success None.
Proof. vm_compute. repeat split. Qed.

(** C5 (amended): with an amount that does not parse as a decimal integer,
    the Halley [transferFunds] fails and only reads the ledger: no record
    changes and no write is attempted.  The error is the one of the first
    step that fails, in the order of the handler: the read of the sending
    wallet ("Failed to get [FROM] Wallet"), its presence ("Wallet [FROM]
    does not exist"), the read of the receiving wallet ("Failed to get [TO]
    Wallet"), the decoding of the two records ("Failed to unmarshal
    wallet", also when the receiving wallet is missing); and when both
    reads succeed and both records are there and decode, it is the error
    of the amount, "Failed to parse into Integer". *)
Theorem transferFunds_bad_amount A B n rest st :
  snd (Atoi n) <> None ->
  let r := Halley.transferFunds (A :: B :: n :: rest) st in
  fst r
  = Error
      match Fault st (Log st) (OpGet A), State st !! A with
      | Some _, _ => "Failed to get [FROM] Wallet"
      | None, None => "Wallet [FROM] does not exist"
      | None, Some _ =>
          match Fault st (Log st ++ [OpGet A]) (OpGet B) with
          | Some _ => "Failed to get [TO] Wallet"
          | None =>
              match Halley.wallet_at st A, Halley.wallet_at st B with
              | Some _, Some _ => "Failed to parse into Integer"
              | _, _ => "Failed to unmarshal wallet"
              end
          end
      end
  /\ State (snd r) = State st
  /\ writes (Log (snd r)) = writes (Log st).
Proof.
  intros Hn r. subst r.
  unfold Halley.transferFunds, Halley.wallet_at, bind, ret, GetState.
  fold Halley.zero_wallet.
  destruct (Atoi n) as [funds [e |]]; [clear Hn | cbn [snd] in Hn; congruence].
  pose proof (Halley_Unmarshal_nil Halley.zero_wallet) as Hnil.
  assert (Hw : writes ((Log st ++ [OpGet A]) ++ [OpGet B]) = writes (Log st)).
  { rewrite <- app_assoc. apply writes_read_only. reflexivity. }
  assert (Hw1 : writes (Log st ++ [OpGet A]) = writes (Log st)).
  { apply writes_read_only. reflexivity. }
  destruct (Fault st (Log st) (OpGet A)) as [e1 |];
    [cbn [fst snd State Log record]; auto |].
  destruct (State st !! A) as [dataA |];
    [| cbn [fst snd State Log record]; auto].
  cbn [State Log Fault record].
  destruct (Fault st (Log st ++ [OpGet A]) (OpGet B)) as [e2 |];
    [cbn [fst snd State Log record]; auto |].
  cbn [Halley.bytes].
  destruct (Halley.json_Unmarshal dataA Halley.zero_wallet) as [from [ea |]];
    [cbn [fst snd State Log record]; auto |].
  destruct (State st !! B) as [dataB |]; cbn [Halley.bytes].
  - destruct (Halley.json_Unmarshal dataB Halley.zero_wallet) as [to [eb |]];
      cbn [fst snd State Log record]; auto.
  - destruct (Halley.json_Unmarshal EmptyString Halley.zero_wallet)
      as [to [eb |]]; [| discriminate Hnil].
    cbn [fst snd State Log record]. auto.
Qed.

Lemma transferFunds_bad_amount_witness :
  let r := Halley.transferFunds ["w1"; "w2"; "ten"] Examples.halley_two in
  let r' := Halley.transferFunds ["w1"; "nobody"; "ten"] Examples.halley_two in
  snd (Atoi "ten") <> None
  /\ fst r = Error "Failed to parse into Integer"
  /\ State (snd r) = State Examples.halley_two
  /\ writes (Log (snd r)) = writes (Log Examples.halley_two)
  /\ fst r' = Error "Failed to unmarshal wallet".
Proof.
  cbv zeta.
  assert (Hn : snd (Atoi "ten") <> None) by (vm_compute; discriminate).
  split; [exact Hn |].
  pose proof (transferFunds_bad_amount "w1" "w2" "ten" [] Examples.halley_two Hn)
    as H.
  pose proof (transferFunds_bad_amount "w1" "nobody" "ten" []
                Examples.halley_two Hn) as H'.
  cbv zeta in H, H'. destruct H as (H1 & H2 & H3). destruct H' as (H1' & _).
  split; [exact H1 |]. split; [exact H2 |]. split; [exact H3 | exact H1'].
Defined.

End TransferAmount.

Section TransferFrame.
Import Chars Strconv Shim Ledger.

(** X19: in [coggia.go] a successful transfer changes the records at the
    two keys only, and the wallets there keep their address. *)
Lemma Coggia_transfer_frame from to n rest st st' p :
  Coggia.transferFunds (from :: to :: n :: rest) st = (Success p, st') ->
  (forall k, k <> from -> k <> to -> State st' !! k = State st !! k)
  /\ identity_at SimpleChaincode st' from = identity_at SimpleChaincode st from
  /\ identity_at SimpleChaincode st' to = identity_at SimpleChaincode st to.
Proof.
  intros H.
  destruct (transferFunds_success _ _ _ _ H)
    as (from' & to' & amount & rest' & F & T & Ea & HF & HT & HS).
  simplify_eq. split; [| split].
  - intros k Hf Ht. rewrite HS, !lookup_insert_ne by congruence. reflexivity.
  - cbn [identity_at]. rewrite HF.
    erewrite Coggia_wallet_at_insert_eq;
      [| exact HS | decoded_address | apply wrap_in_range].
    reflexivity.
  - cbn [identity_at]. rewrite HT.
    destruct (decide (from' = to')) as [-> | Hne].
    + rewrite HF in HT. simplify_eq.
      erewrite Coggia_wallet_at_insert_eq;
        [| exact HS | decoded_address | apply wrap_in_range].
      reflexivity.
    + unfold Coggia.wallet_at at 1. rewrite HS, lookup_insert_ne by exact Hne.
      rewrite lookup_insert_eq, Unmarshal_Marshal;
        [reflexivity | decoded_address | apply wrap_in_range].
Qed.

(** X21: whatever its arguments and its outcome, the Halley
    [transferFunds] leaves every record at a non-empty key as it was: the
    decoded wallets have the empty [id], and the two writes go there. *)
Lemma Halley_transfer_never_updates args st k :
  k <> EmptyString ->
  State (snd (Halley.transferFunds args st)) !! k = State st !! k.
Proof.
  intros Hk. destruct args as [| A [| B [| n rest]]]; try reflexivity.
  unfold Halley.transferFunds, bind, ret, GetState, PutState.
  fold Halley.zero_wallet.
  pose proof Halley_Unmarshal_unchanged as HU.
  set (marshal := Halley.json_Marshal) in *. clearbody marshal.
  set (unmarshal := Halley.json_Unmarshal) in *. clearbody unmarshal.
  repeat (case_match; simplify_eq;
          cbn [fst snd State Log Fault record with_state] in * );
    try reflexivity;
    repeat match goal with
           | E : unmarshal ?d ?w = (?w', _) |- _ =>
               is_var w';
               assert (w' = w) by (rewrite <- (HU d w), E; reflexivity);
               subst w'
           end;
    cbn [Halley.id Halley.zero_wallet];
    rewrite ?lookup_insert_ne by congruence; reflexivity.
Qed.

(** X22: on a stub that refuses the empty key, as the stub of a Fabric
    peer does, the Halley [transferFunds] never succeeds. *)
Lemma Halley_transfer_strict_stub args st :
  (forall log value, Fault st log (OpPut EmptyString value) <> None) ->
  forall p, fst (Halley.transferFunds args st) <> Success p.
Proof.
  intros Hstrict p H.
  destruct (Halley.transferFunds args st) as [r st'] eqn:E.
  cbn [fst] in H. subst r.
  destruct args as [| A [| B [| n rest]]]; try discriminate E.
  revert E. unfold Halley.transferFunds, bind, ret, GetState, PutState.
  fold Halley.zero_wallet.
  pose proof Halley_Unmarshal_unchanged as HU.
  set (marshal := Halley.json_Marshal) in *. clearbody marshal.
  set (unmarshal := Halley.json_Unmarshal) in *. clearbody unmarshal.
  intros E.
  repeat (case_match; simplify_eq;
          cbn [fst snd State Log Fault record with_state] in * ).
  repeat match goal with
         | E : unmarshal ?d ?w = (?w', _) |- _ =>
             is_var w';
             assert (w' = w) by (rewrite <- (HU d w), E; reflexivity);
             subst w'
         end.
  cbn [Halley.id Halley.zero_wallet] in *.
  match goal with
  | F : Fault st ?l (OpPut EmptyString ?v) = None |- _ =>
      exact (Hstrict l v F)
  end.
Qed.

(** C6, at a failing input: the ledger holds the wallets "w1" and "w2"
    created by [createWallet] and accepts every call; the Halley
    [transferFunds("w1", "w2", 3)] succeeds, and the one key whose value it
    has changed is the empty key, which is neither of the two; the records
    at "w1" and "w2" are what they were. *)
Theorem Halley_transfer_writes_empty_key :
  let st := Examples.halley_two in
  let r := Halley.transferFunds ["w1"; "w2"; "3"] st in
  fst r = Success None
  /\ State st !! EmptyString = None
  /\ State (snd r) !! EmptyString = Some Halley.empty_object
  /\ State (snd r) !! "w1" = State st !! "w1"
  /\ State (snd r) !! "w2" = State st !! "w2"
  /\ writes (Log (snd r))
     = writes (Log st) ++ [OpPut EmptyString Halley.empty_object;
                           OpPut EmptyString Halley.empty_object].
Proof. vm_compute. repeat split. Qed.

End TransferFrame.

Section StoreFaults.
Import Chars Strconv Shim.

(** X25: [createWallet] reports a failed write of the record. *)
Lemma createWallet_put_fault id b o st e :
  snd (Atoi b) = None ->
  Fault st (Log st) (OpGet id) = None ->
  State st !! id = None ->
  Fault st (Log st ++ [OpGet id]) (OpPut id Halley.empty_object) = Some e ->
  fst (Halley.createWallet [id; b; o] st) = Error "Failed to save the wallet".
Proof.
  intros Hb Hget Hnone Hput. unfold Halley.createWallet.
  destruct (Atoi b) as [balance eb]. cbn [snd] in Hb. subst eb.
  unfold bind, ret, GetState, PutState. rewrite Hget, Hnone.
  rewrite Halley_Marshal_empty. cbn [State Log Fault record].
  fold Halley.empty_object. rewrite Hput. reflexivity.
Qed.

(** X26: [initWallet] reports a failed write of the record. *)
Lemma initWallet_primary_fault address b st e :
  address <> EmptyString ->
  Fault st (Log st)
    (OpPut address
       (fst (Coggia.json_Marshal (Coggia.mkWallet address (fst (Atoi b))))))
  = Some e ->
  fst (Coggia.initWallet [address; b] st) = Error e.
Proof.
  intros Ha Hput. unfold Coggia.initWallet.
  destruct address as [| c a']; [congruence |].
  cbn [String.length Nat.leb orb].
  destruct (Atoi b) as [balance eb]. cbn [fst] in *.
  rewrite Coggia_Marshal_pair. unfold bind, ret, PutState. rewrite Hput.
  reflexivity.
Qed.

(** X20: [initWallet] drops the result of the write of the index entry:
    when that write fails, the answer is still success. *)
Lemma initWallet_index_fault_ignored address b st k e :
  address <> EmptyString ->
  Fault st (Log st)
    (OpPut address
       (fst (Coggia.json_Marshal (Coggia.mkWallet address (fst (Atoi b))))))
  = None ->
  CreateCompositeKey "address~balance" [address; Itoa (fst (Atoi b))] = (k, None) ->
  Fault st
    (Log st ++
       [OpPut address
          (fst (Coggia.json_Marshal (Coggia.mkWallet address (fst (Atoi b)))))])
    (OpPut k (String NUL EmptyString)) = Some e ->
  fst (Coggia.initWallet [address; b] st) = Success None
  /\ State (snd (Coggia.initWallet [address; b] st)) !! k = State st !! k.
Proof.
  intros Ha Hput Hk Hidx. unfold Coggia.initWallet.
  destruct address as [| c a']; [congruence |].
  cbn [String.length Nat.leb orb].
  destruct (Atoi b) as [balance eb]. cbn [fst] in *.
  rewrite Coggia_Marshal_pair. unfold bind, ret, PutState. rewrite Hput.
  cbn [Coggia.Address Coggia.Balance]. rewrite Hk.
  cbn [State Log Fault record with_state]. rewrite Hidx.
  cbn [fst snd State record with_state]. split; [reflexivity |].
  apply lookup_insert_ne. intros E. symmetry in E.
  exact (CreateCompositeKey_fresh _ _ _ _ Hk E).
Qed.

(** C8, at a failing input: on a ledger that refuses the write of the
    index entry, [initWallet("a", "1")] writes the record, attempts the
    index entry, is told that the write failed, and answers success; the
    index entry is not in the ledger. *)
Theorem initWallet_index_fault_unreported :
  let st := Examples.index_down in
  let data := fst (Coggia.json_Marshal (Coggia.mkWallet "a" 1)) in
  let key := fst (CreateCompositeKey "address~balance" ["a"; "1"]) in
  let r := Coggia.initWallet ["a"; "1"] st in
  Log (snd r) = [OpPut "a" data; OpPut key (String NUL EmptyString)]
  /\ Fault st [OpPut "a" data] (OpPut key (String NUL EmptyString))
     = Some "ledger unavailable"
  /\ fst r = Success None
  /\ State (snd r) !! key = None.
Proof. vm_compute. repeat split. Qed.

End StoreFaults.

Section Dispatch.
Import Chars Strconv Shim Ledger.

(** C10: for an operation name that is none of [createWallet],
    [initWallet], [queryWallet], [readWallet], [transferFunds],
    [deleteWallet] and [getWalletsByRange], [Invoke] of either contract
    answers with the error "Received Unknown function invocation" and
    leaves the stub as it was: no call to the ledger is made. *)
Theorem Invoke_unknown_operation c function args st :
  function ∉ operations ->
  Invoke c function args st
  = (Error "Received Unknown function invocation", st).
Proof.
  intros Hf. unfold operations in Hf.
  assert (Hne : forall name, name ∈ operations -> String.eqb function name = false).
  { intros name Hin. apply String.eqb_neq. intros ->. exact (Hf Hin). }
  unfold operations in Hne.
  destruct c; unfold Invoke, Coggia.Invoke, Halley.Invoke;
    rewrite !Hne by set_solver; reflexivity.
Qed.

Lemma Invoke_unknown_operation_witness :
  ("mintCoins" ∉ operations)
  /\ Invoke SmartContract "mintCoins" ["w1"; "5"] Examples.halley_one
     = (Error "Received Unknown function invocation", Examples.halley_one).
Proof.
  assert (Hf : "mintCoins" ∉ operations).
  { unfold operations. intros H. repeat (apply elem_of_cons in H as [H | H];
      [discriminate H |]). inversion H. }
  split; [exact Hf |].
  exact (Invoke_unknown_operation SmartContract "mintCoins" ["w1"; "5"]
           Examples.halley_one Hf).
Defined.

End Dispatch.

Section Delete.
Import Chars Strconv Shim.

(** C9: [deleteWallet(id)], when the ledger carries out the deletion,
    succeeds whether or not there was a record at [id]; afterwards there is
    no record at [id], so that [queryWallet(id)] and [readWallet(id)] answer
    that the wallet does not exist; every other key keeps its value, and so
    does in particular any index entry made of [id] and a balance.  When
    the ledger fails to delete, the answer is "Failed to delete state" and
    the ledger is unchanged. *)
Theorem deleteWallet_removes_primary_only id rest st :
  let r := Halley.deleteWallet (id :: rest) st in
  let missing := "{" +:+ q "Error" +:+ ":"
                     +:+ q ("Wallet does not exist: " +:+ id) +:+ "}" in
  (Fault st (Log st) (OpDel id) = None ->
   fst r = Success None
   /\ State (snd r) !! id = None
   /\ (forall k, k <> id -> State (snd r) !! k = State st !! k)
   /\ (forall b k,
         CreateCompositeKey "address~balance" [id; b] = (k, None) ->
         State (snd r) !! k = State st !! k)
   /\ (Fault (snd r) (Log (snd r)) (OpGet id) = None ->
       (forall rest', fst (Halley.queryWallet (id :: rest') (snd r)) = Error missing)
       /\ fst (Coggia.readWallet [id] (snd r)) = Error missing))
  /\ (forall e, Fault st (Log st) (OpDel id) = Some e ->
      fst r = Error "Failed to delete state" /\ State (snd r) = State st).
Proof.
  intros r missing. subst r missing.
  unfold Halley.deleteWallet, bind, ret, DelState. split.
  - intros Hdel. rewrite Hdel. cbn [fst snd State Log Fault record with_state].
    split; [reflexivity |]. split; [apply lookup_delete_eq |].
    split; [intros k Hk; apply lookup_delete_ne; congruence |].
    split.
    + intros b k Hk. apply lookup_delete_ne. intros E. symmetry in E.
      exact (CreateCompositeKey_fresh _ _ _ _ Hk E).
    + intros Hget. unfold Halley.queryWallet, Coggia.readWallet, bind, ret, GetState.
      cbn [fst snd State Log Fault record with_state]. rewrite Hget.
      rewrite lookup_delete_eq. split; [intros rest' |]; reflexivity.
  - intros e Hdel. rewrite Hdel. split; reflexivity.
Qed.

Lemma deleteWallet_removes_primary_only_witness :
  let st := Examples.halley_two in
  let r := Halley.deleteWallet ["w2"] st in
  Fault st (Log st) (OpDel "w2") = None
  /\ fst r = Success None
  /\ State (snd r) !! "w2" = None
  /\ (forall k, k <> "w2" -> State (snd r) !! k = State st !! k).
Proof.
  assert (Hdel : Fault Examples.halley_two (Log Examples.halley_two)
                   (OpDel "w2") = None) by reflexivity.
  split; [exact Hdel |].
  destruct (proj1 (deleteWallet_removes_primary_only "w2" [] Examples.halley_two)
              Hdel) as (H1 & H2 & H3 & _).
  exact (conj H1 (conj H2 H3)).
Defined.

End Delete.

Section RangeQuery.
Import Chars Strconv Shim.

#[local] Instance key_le_total : Total key_le.
Proof. intros x y. unfold key_le. apply (total String.le). Qed.

#[local] Instance key_le_trans : Transitive key_le.
Proof. intros x y z. unfold key_le. apply transitivity. Qed.

(** The entries of a range scan are the entries of the ledger with a key
    in the range. *)
Lemma rangeScan_elem m startKey endKey k v :
  (k, v) ∈ rangeScan m startKey endKey
  <-> m !! k = Some v /\ in_range startKey endKey k = true.
Proof.
  unfold rangeScan. rewrite merge_sort_Permutation.
  rewrite list_elem_of_In, List.filter_In, <- list_elem_of_In.
  rewrite elem_of_map_to_list. reflexivity.
Qed.




Lemma write_entry_entry buffer kv :
  Coggia.write_entry buffer kv = buffer +:+ Coggia.entry kv.
Proof.
  unfold Coggia.write_entry, Coggia.entry, q.
  repeat first [rewrite append_assoc | progress cbn [String.append]].
  reflexivity.
Qed.

(** What follows the first entry in the buffer: every further entry after
    a comma. *)
Lemma join_comma_cons x l :
  Json.join_comma (x :: l)
  = x +:+ match l with [] => EmptyString | _ => "," +:+ Json.join_comma l end.
Proof. destruct l; cbn [Json.join_comma]; [now rewrite append_nil_r | reflexivity]. Qed.

(** When no call of [Next] fails, the loop writes the entries in the
    order of the iterator, a comma before each but the first, and calls
    [Next] once for each. *)
Lemma scan_loop_ok it : forall buffer written st,
  (forall n, (n < length it)%nat ->
     Fault st (Log st ++ replicate n OpNext) OpNext = None) ->
  Coggia.scan_loop it buffer written st
  = (inl (buffer +:+
            match it with
            | [] => EmptyString
            | _ => (if written then "," else EmptyString)
                   +:+ Json.join_comma (map Coggia.entry it)
            end),
     mkStub (State st) (Log st ++ replicate (length it) OpNext) (Fault st)).
Proof.
  induction it as [| kv it IH]; intros buffer written st Hff.
  - cbn [Coggia.scan_loop ret length replicate]. rewrite append_nil_r, app_nil_r.
    destruct st; reflexivity.
  - cbn [Coggia.scan_loop]. unfold bind at 1, Next at 1.
    pose proof (Hff 0%nat ltac:(cbn [length]; lia)) as H0.
    cbn [replicate] in H0. rewrite app_nil_r in H0. rewrite H0.
    rewrite IH.
    2:{ intros n Hn. cbn [State Log Fault record].
        rewrite <- app_assoc. apply (Hff (S n)). cbn [length]. lia. }
    cbn [State Log Fault record length replicate map].
    rewrite <- app_assoc. cbn [app]. f_equal. f_equal.
    rewrite write_entry_entry, join_comma_cons.
    destruct written, it as [| kv' it'];
      repeat first [rewrite append_assoc | rewrite append_nil_r
                   | progress cbn [String.append map]];
      reflexivity.
Qed.

Lemma scan_loop_fault_free it buffer written st :
  fault_free st ->
  Coggia.scan_loop it buffer written st
  = (inl (buffer +:+
            match it with
            | [] => EmptyString
            | _ => (if written then "," else EmptyString)
                   +:+ Json.join_comma (map Coggia.entry it)
            end),
     mkStub (State st) (Log st ++ replicate (length it) OpNext) (Fault st)).
Proof. intros Hff. apply scan_loop_ok. intros n _. apply Hff. Qed.





End RangeQuery.

(* ------------------------------------------------------------------ *)
(* Further properties of the handlers *)


Section InitWallet.
Import Chars Strconv Shim.

(** The three ways [initWallet] goes once its arguments are accepted. *)
Lemma initWallet_cases a b st :
  a <> EmptyString ->
  let data := fst (Coggia.json_Marshal (Coggia.mkWallet a (fst (Atoi b)))) in
  let st1 := record (OpPut a data) (with_state (<[a := data]> (State st)) st) in
  Coggia.initWallet [a; b] st
  = match Fault st (Log st) (OpPut a data) with
    | Some e => (Error e, record (OpPut a data) st)
    | None =>
        match CreateCompositeKey "address~balance" [a; Itoa (fst (Atoi b))] with
        | (_, Some e) => (Error e, st1)
        | (k, None) =>
            (Success None, snd (PutState k (String NUL EmptyString) st1))
        end
    end.
Proof.
  intros Ha data st1. subst data st1. unfold Coggia.initWallet.
  destruct a as [| c a']; [congruence |].
  cbn [String.length Nat.leb orb].
  destruct (Atoi b) as [balance e]. cbn [fst].
  rewrite Coggia_Marshal_pair. unfold bind, ret, PutState at 1.
  destruct (Fault st (Log st) _); [reflexivity |].
  cbn [Coggia.Address Coggia.Balance].
  destruct (CreateCompositeKey _ _) as [k [err |]]; [reflexivity |].
  destruct (PutState k _ _). reflexivity.
Qed.

Lemma initWallet_success_nonempty a b st st' p :
  Coggia.initWallet [a; b] st = (Success p, st') -> a <> EmptyString.
Proof. intros H ->. discriminate H. Qed.

(** [initWallet] succeeds for well-formed addresses only: the index key
    is made of the address. *)
Lemma initWallet_success_valid a b st st' p :
  Coggia.initWallet [a; b] st = (Success p, st') -> Utf8.ValidString a = true.
Proof.
  intros H. pose proof (initWallet_success_nonempty _ _ _ _ _ H) as Ha.
  rewrite (initWallet_cases a b st Ha) in H. cbv zeta in H.
  destruct (Fault st (Log st) _); [discriminate H |].
  destruct (CreateCompositeKey _ _) as [k [err |]] eqn:Ek; [discriminate H |].
  eapply CreateCompositeKey_valid. exact Ek.
Qed.

(** The record of a wallet that [initWallet] has created. *)
Lemma initWallet_success_record a b st st' p :
  Coggia.initWallet [a; b] st = (Success p, st') ->
  State st' !! a
  = Some (fst (Coggia.json_Marshal (Coggia.mkWallet a (fst (Atoi b))))).
Proof.
  intros H. pose proof (initWallet_success_nonempty _ _ _ _ _ H) as Ha.
  rewrite (initWallet_cases a b st Ha) in H. cbv zeta in H.
  destruct (Fault st (Log st) _); [discriminate H |].
  destruct (CreateCompositeKey _ _) as [k [err |]] eqn:Ek; [discriminate H |].
  apply CreateCompositeKey_fresh in Ek.
  unfold PutState in H. cbn [State Log Fault record with_state] in H.
  destruct (Fault st _ _); inversion H; subst; cbn [State record with_state].
  - apply lookup_insert_eq.
  - rewrite lookup_insert_ne by exact Ek. apply lookup_insert_eq.
Qed.

(** X1: read after write in [coggia.go].  After a successful
    [initWallet(address, balance)], a [readWallet(address)] whose read of
    the ledger does not fail returns the stored bytes, and these decode to
    the wallet with that address and the value [Atoi] gave for the balance
    text. *)
Theorem initWallet_then_readWallet a b st st' p :
  Coggia.initWallet [a; b] st = (Success p, st') ->
  Fault st' (Log st') (OpGet a) = None ->
  exists data,
    fst (Coggia.readWallet [a] st') = Success (Some data)
    /\ Coggia.json_Unmarshal data (Coggia.mkWallet EmptyString 0)
       = (Coggia.mkWallet a (fst (Atoi b)), None).
Proof.
  intros H Hget. pose proof (initWallet_success_valid _ _ _ _ _ H) as Hv.
  apply initWallet_success_record in H.
  eexists. split.
  - unfold Coggia.readWallet, bind, ret, GetState. rewrite Hget, H. reflexivity.
  - apply Unmarshal_Marshal; [exact Hv | apply Atoi_in_range].
Qed.

Lemma initWallet_then_readWallet_witness :
  let st' := snd (Coggia.initWallet ["w1"; "100"] (Ledger.reliable ∅)) in
  Coggia.initWallet ["w1"; "100"] (Ledger.reliable ∅) = (Success None, st')
  /\ Fault st' (Log st') (OpGet "w1") = None
  /\ exists data,
       fst (Coggia.readWallet ["w1"] st') = Success (Some data)
       /\ Coggia.json_Unmarshal data (Coggia.mkWallet EmptyString 0)
          = (Coggia.mkWallet "w1" (fst (Atoi "100")), None).
Proof.
  assert (Hrun : Coggia.initWallet ["w1"; "100"] (Ledger.reliable ∅)
                 = (Success None,
                    snd (Coggia.initWallet ["w1"; "100"] (Ledger.reliable ∅))))
    by (vm_compute; reflexivity).
  split; [exact Hrun |]. split; [reflexivity |].
  exact (initWallet_then_readWallet "w1" "100" _ _ None Hrun eq_refl).
Defined.



(** X3: whatever its arguments and its outcome, [initWallet] changes the
    ledger at most at the address and at the index key made of the address
    and the balance; every other key keeps its value. *)
Theorem initWallet_frame args st k :
  (forall a b, args = [a; b] ->
     k <> a
     /\ k <> fst (CreateCompositeKey "address~balance" [a; Itoa (fst (Atoi b))])) ->
  State (snd (Coggia.initWallet args st)) !! k = State st !! k.
Proof.
  intros Hk. destruct args as [| a [| b [| c rest]]]; try reflexivity.
  destruct (Hk a b eq_refl) as [Ha Hi].
  destruct (decide (a = EmptyString)) as [-> | Hne]; [reflexivity |].
  rewrite (initWallet_cases a b st Hne). cbv zeta.
  destruct (Fault st (Log st) _); [reflexivity |].
  destruct (CreateCompositeKey _ _) as [key [err |]] eqn:Ek.
  - cbn [snd State record with_state]. apply lookup_insert_ne. congruence.
  - cbn [fst] in Hi. unfold PutState. cbn [State Log Fault record with_state].
    destruct (Fault st _ _); cbn [snd State record with_state];
      rewrite !lookup_insert_ne by congruence; reflexivity.
Qed.

Lemma initWallet_frame_witness :
  (forall a b, ["b"; "7"] = [a; b] ->
     "a" <> a
     /\ "a" <> fst (CreateCompositeKey "address~balance" [a; Itoa (fst (Atoi b))]))
  /\ State (snd (Coggia.initWallet ["b"; "7"]
                   (snd (Coggia.initWallet ["a"; "5"] (Ledger.reliable ∅))))) !! "a"
     = State (snd (Coggia.initWallet ["a"; "5"] (Ledger.reliable ∅))) !! "a".
Proof.
  assert (Hk : forall a b, ["b"; "7"] = [a; b] ->
     "a" <> a
     /\ "a" <> fst (CreateCompositeKey "address~balance" [a; Itoa (fst (Atoi b))])).
  { intros a b E. inversion E; subst. split; intros H; discriminate H. }
  split; [exact Hk |].
  exact (initWallet_frame ["b"; "7"] _ "a" Hk).
Defined.

(** X4: [initWallet] writes the record before it builds the index key.
    When the key cannot be built (the address is no well-formed UTF-8, or
    holds U+0000 or U+10FFFF), the answer is that error, and the bytes
    written for the new wallet are in the ledger at the address all the
    same.  When the address is well-formed, they decode to the wallet. *)
Theorem initWallet_index_key_error a b st k e :
  a <> EmptyString ->
  Fault st (Log st)
    (OpPut a (fst (Coggia.json_Marshal (Coggia.mkWallet a (fst (Atoi b))))))
  = None ->
  CreateCompositeKey "address~balance" [a; Itoa (fst (Atoi b))] = (k, Some e) ->
  let r := Coggia.initWallet [a; b] st in
  fst r = Error e
  /\ State (snd r) !! a
     = Some (fst (Coggia.json_Marshal (Coggia.mkWallet a (fst (Atoi b)))))
  /\ (forall k', k' <> a -> State (snd r) !! k' = State st !! k')
  /\ (Utf8.ValidString a = true ->
      Coggia.wallet_at (snd r) a = Some (Coggia.mkWallet a (fst (Atoi b)))).
Proof.
  intros Ha Hput Hk. cbv zeta. rewrite (initWallet_cases a b st Ha). cbv zeta.
  rewrite Hput, Hk. cbn [fst snd State record with_state].
  split; [reflexivity |]. split; [apply lookup_insert_eq |].
  split; [intros k' Hk'; apply lookup_insert_ne; congruence |].
  intros Hv.
  eapply Coggia_wallet_at_insert_eq;
    [reflexivity | exact Hv | apply Atoi_in_range].
Qed.

Lemma initWallet_index_key_error_witness :
  let a := String "a" (String NUL EmptyString) in
  let r := Coggia.initWallet [a; "5"] (Ledger.reliable ∅) in
  a <> EmptyString
  /\ Utf8.ValidString a = true
  /\ (exists k e,
        CreateCompositeKey "address~balance" [a; Itoa (fst (Atoi "5"))]
        = (k, Some e)
        /\ fst r = Error e)
  /\ State (snd r) !! a
     = Some (fst (Coggia.json_Marshal (Coggia.mkWallet a (fst (Atoi "5")))))
  /\ Coggia.wallet_at (snd r) a = Some (Coggia.mkWallet a (fst (Atoi "5"))).
Proof.
  cbv zeta.
  assert (Ha : String "a" (String NUL EmptyString) <> EmptyString)
    by (intros H; discriminate H).
  pose proof (initWallet_index_key_error (String "a" (String NUL EmptyString))
                "5" (Ledger.reliable ∅) _ _ Ha eq_refl eq_refl) as H.
  cbv zeta in H. destruct H as (Hr & Hs & _ & Hw).
  split; [exact Ha |]. split; [reflexivity |].
  split; [do 2 eexists; split; [reflexivity | exact Hr] |].
  split; [exact Hs | exact (Hw eq_refl)].
Defined.

End InitWallet.

Section ReadWallet.
Import Chars Strconv Shim.


End ReadWallet.

Section CoggiaTransferOutcomes.
Import Chars Strconv Shim.

(** The ways the transfer of [coggia.go] goes, with the stub it leaves. *)
Lemma Coggia_transferFunds_cases from to n rest st :
  let zero := Coggia.mkWallet EmptyString 0 in
  let st1 := record (OpGet from) st in
  let st2 := record (OpGet to) st1 in
  Coggia.transferFunds (from :: to :: n :: rest) st
  = match Fault st (Log st) (OpGet from), State st !! from with
    | Some e, _ => (Error ("Failed to get Wallet: " +:+ e), st1)
    | None, None => (Error "Wallet 1 doesn't exist", st1)
    | None, Some fromAsBytes =>
        match Fault st (Log st1) (OpGet to), State st !! to with
        | Some e, _ => (Error ("Failed to get Wallet: " +:+ e), st2)
        | None, None => (Error "Wallet 1 doesn't exist", st2)
        | None, Some toAsBytes =>
            match Coggia.json_Unmarshal fromAsBytes zero with
            | (_, Some e) => (Error (Json.error_text e), st2)
            | (F, None) =>
                match Coggia.json_Unmarshal toAsBytes zero with
                | (_, Some e) => (Error (Json.error_text e), st2)
                | (T, None) =>
                    let mT := fst (Coggia.json_Marshal
                                (Coggia.mkWallet (Coggia.Address T)
                                   (GoInt.add (Coggia.Balance T) (fst (Atoi n))))) in
                    let mF := fst (Coggia.json_Marshal
                                (Coggia.mkWallet (Coggia.Address F)
                                   (GoInt.sub (Coggia.Balance F) (fst (Atoi n))))) in
                    match Fault st (Log st2) (OpPut to mT) with
                    | Some e => (Error e, record (OpPut to mT) st2)
                    | None =>
                        let st3 := record (OpPut to mT)
                                     (with_state (<[to := mT]> (State st)) st2) in
                        match Fault st (Log st3) (OpPut from mF) with
                        | Some e => (Error e, record (OpPut from mF) st3)
                        | None =>
                            (Success None,
                             record (OpPut from mF)
                               (with_state (<[from := mF]> (State st3)) st3))
                        end
                    end
                end
            end
        end
    end.
Proof.
  cbv zeta. unfold Coggia.transferFunds, bind, ret, GetState, PutState.
  destruct (Atoi n) as [transfer e]. cbn [fst].
  destruct (Fault st (Log st) (OpGet from)); [reflexivity |].
  destruct (State st !! from); [| reflexivity].
  cbn [State Log Fault record with_state].
  destruct (Fault st (Log st ++ [OpGet from]) (OpGet to)); [reflexivity |].
  destruct (State st !! to); [| reflexivity].
  destruct (Coggia.json_Unmarshal _ _) as [F [eF |]]; [reflexivity |].
  destruct (Coggia.json_Unmarshal _ _) as [T [eT |]]; [reflexivity |].
  rewrite (Coggia_Marshal_pair (Coggia.mkWallet (Coggia.Address T) _)).
  rewrite (Coggia_Marshal_pair (Coggia.mkWallet (Coggia.Address F) _)).
  cbn [State Log Fault record with_state].
  destruct (Fault st _ (OpPut to _)); [reflexivity |].
  cbn [State Log Fault record with_state].
  destruct (Fault st _ (OpPut from _)); reflexivity.
Qed.

End CoggiaTransferOutcomes.


Section CoggiaTransferMore.
Import Chars Strconv Shim.

(** X6: a transfer from a wallet to itself in [coggia.go].  Both copies of
    the wallet are read before either is written, and the debited copy is
    written last: when the call succeeds, the balance has gone down by the
    amount. *)
Theorem Coggia_transfer_to_self A n rest st st' p :
  Coggia.transferFunds (A :: A :: n :: rest) st = (Success p, st') ->
  exists a,
    Coggia.balance_at st A = Some a
    /\ Coggia.balance_at st' A = Some (GoInt.sub a (fst (Atoi n))).
Proof.
  intros H.
  destruct (transferFunds_success _ _ _ _ H)
    as (from & to & amount & rest' & F & T & Ea & HF & HT & HS).
  simplify_eq. exists (Coggia.Balance F). unfold Coggia.balance_at.
  rewrite HF. split; [reflexivity |].
  erewrite Coggia_wallet_at_insert_eq;
    [| exact HS | decoded_address | apply wrap_in_range].
  reflexivity.
Qed.

Lemma Coggia_transfer_to_self_witness :
  let st' := snd (Coggia.transferFunds ["a"; "a"; "3"] Examples.pair) in
  Coggia.transferFunds ["a"; "a"; "3"] Examples.pair = (Success None, st')
  /\ Coggia.balance_at Examples.pair "a" = Some 5
  /\ Coggia.balance_at st' "a" = Some 2.
Proof.
  assert (Hrun : Coggia.transferFunds ["a"; "a"; "3"] Examples.pair
                 = (Success None,
                    snd (Coggia.transferFunds ["a"; "a"; "3"] Examples.pair)))
    by (vm_compute; reflexivity).
  split; [exact Hrun |].
  destruct (Coggia_transfer_to_self "a" "3" [] Examples.pair _ None Hrun)
    as (a & Ha & Ha').
  assert (E : Coggia.balance_at Examples.pair "a" = Some 5)
    by (vm_compute; reflexivity).
  split; [exact E |]. rewrite E in Ha. inversion Ha; subst a. exact Ha'.
Defined.

(** X7: the two writes of a transfer in [coggia.go] are separate.  When
    the reads succeed, both wallets decode and the write of the receiving
    wallet succeeds, but the write of the sending wallet fails, the answer
    is that error; the receiving wallet has been credited in the ledger and
    the record of the sending wallet is as before. *)
Theorem Coggia_transfer_second_write_fails from to n rest st F T e :
  let mT := fst (Coggia.json_Marshal
              (Coggia.mkWallet (Coggia.Address T)
                 (GoInt.add (Coggia.Balance T) (fst (Atoi n))))) in
  let mF := fst (Coggia.json_Marshal
              (Coggia.mkWallet (Coggia.Address F)
                 (GoInt.sub (Coggia.Balance F) (fst (Atoi n))))) in
  from <> to ->
  Coggia.wallet_at st from = Some F ->
  Coggia.wallet_at st to = Some T ->
  Fault st (Log st) (OpGet from) = None ->
  Fault st (Log st ++ [OpGet from]) (OpGet to) = None ->
  Fault st ((Log st ++ [OpGet from]) ++ [OpGet to]) (OpPut to mT) = None ->
  Fault st (((Log st ++ [OpGet from]) ++ [OpGet to]) ++ [OpPut to mT])
    (OpPut from mF) = Some e ->
  let r := Coggia.transferFunds (from :: to :: n :: rest) st in
  fst r = Error e
  /\ Coggia.wallet_at (snd r) to
     = Some (Coggia.mkWallet (Coggia.Address T)
               (GoInt.add (Coggia.Balance T) (fst (Atoi n))))
  /\ State (snd r) !! from = State st !! from.
Proof.
  intros mT mF Hne HF HT G1 G2 P1 P2 r. subst r.
  pose proof (Coggia_wallet_at_valid _ _ _ HT) as VT.
  rewrite Coggia_transferFunds_cases. cbv zeta.
  unfold Coggia.wallet_at in HF, HT.
  rewrite G1. destruct (State st !! from) as [fb |] eqn:Efb; [| discriminate HF].
  cbn [State Log Fault record with_state].
  rewrite G2. destruct (State st !! to) as [tb |]; [| discriminate HT].
  destruct (Coggia.json_Unmarshal fb _) as [F' [eF |]]; [discriminate HF |].
  destruct (Coggia.json_Unmarshal tb _) as [T' [eT |]]; [discriminate HT |].
  simplify_eq. fold mT mF. rewrite P1.
  cbn [State Log Fault record with_state]. rewrite P2.
  cbn [fst snd State Log Fault record with_state].
  split; [reflexivity |]. split.
  - eapply Coggia_wallet_at_insert_eq;
      [reflexivity | exact VT | apply wrap_in_range].
  - rewrite lookup_insert_ne by congruence. exact Efb.
Qed.

Lemma Coggia_transfer_second_write_fails_witness :
  let st := Examples.debit_down in
  let r := Coggia.transferFunds ["a"; "b"; "3"] st in
  "a" <> "b"
  /\ fst r = Error "write refused"
  /\ Coggia.wallet_at (snd r) "b"
     = Some (Coggia.mkWallet "b" (GoInt.add 7 (fst (Atoi "3"))))
  /\ State (snd r) !! "a" = State st !! "a".
Proof.
  assert (Hne : "a" <> "b") by discriminate.
  split; [exact Hne |].
  exact (Coggia_transfer_second_write_fails "a" "b" "3" [] Examples.debit_down
           (Coggia.mkWallet "a" 5) (Coggia.mkWallet "b" 7) "write refused"
           Hne eq_refl eq_refl eq_refl eq_refl eq_refl eq_refl).
Defined.

(** X8: whatever its arguments and its outcome, the transfer of
    [coggia.go] changes the ledger at most at the two keys it is given;
    and when either key holds no wallet (no record, or a record that does
    not decode), it fails and changes nothing. *)
Theorem Coggia_transfer_touches_two_keys from to n rest st :
  let r := Coggia.transferFunds (from :: to :: n :: rest) st in
  (forall k, k <> from -> k <> to -> State (snd r) !! k = State st !! k)
  /\ (Coggia.wallet_at st from = None \/ Coggia.wallet_at st to = None ->
      (exists msg, fst r = Error msg)
      /\ State (snd r) = State st
      /\ writes (Log (snd r)) = writes (Log st)).
Proof.
  intros r. subst r. rewrite Coggia_transferFunds_cases. cbv zeta.
  unfold Coggia.wallet_at.
  assert (W1 : writes (Log st ++ [OpGet from]) = writes (Log st))
    by (apply writes_read_only; reflexivity).
  assert (W2 : writes ((Log st ++ [OpGet from]) ++ [OpGet to]) = writes (Log st))
    by (rewrite <- app_assoc; apply writes_read_only; reflexivity).
  destruct (Fault st (Log st) (OpGet from));
    [| destruct (State st !! from) as [fb |];
       [ cbn [State Log Fault record with_state];
         destruct (Fault st (Log st ++ [OpGet from]) (OpGet to));
         [| destruct (State st !! to) as [tb |];
            [ destruct (Coggia.json_Unmarshal fb _) as [F [eF |]];
              [| destruct (Coggia.json_Unmarshal tb _) as [T [eT |]];
                 [| destruct (Fault st _ (OpPut to _));
                    [| cbn [State Log Fault record with_state];
                       destruct (Fault st _ (OpPut from _)) ] ] ] |] ] |] ];
    cbn [fst snd State Log Fault record with_state];
    (split;
     [ intros k Hf Ht; rewrite ?lookup_insert_ne by congruence; reflexivity
     | intros [Hn | Hn]; try discriminate Hn;
       (split; [eexists; reflexivity |]);
       (split; [reflexivity | first [exact W1 | exact W2]]) ]).
Qed.

Lemma Coggia_transfer_touches_two_keys_witness :
  let st := Examples.pair in
  let r := Coggia.transferFunds ["a"; "nobody"; "3"] st in
  (Coggia.wallet_at st "a" = None \/ Coggia.wallet_at st "nobody" = None)
  /\ (exists msg, fst r = Error msg)
  /\ State (snd r) = State st
  /\ writes (Log (snd r)) = writes (Log st).
Proof.
  assert (Hn : Coggia.wallet_at Examples.pair "a" = None
               \/ Coggia.wallet_at Examples.pair "nobody" = None)
    by (right; vm_compute; reflexivity).
  split; [exact Hn |].
  exact (proj2 (Coggia_transfer_touches_two_keys "a" "nobody" "3" [] Examples.pair) Hn).
Defined.

(** X9: in [coggia.go] a transfer undoes the transfer of the same amount
    in the other direction: when both succeed, the two balances are what
    they were at the start. *)
Theorem Coggia_transfer_there_and_back A B n rest rest' st st1 st2 p1 p2 :
  A <> B ->
  Coggia.transferFunds (A :: B :: n :: rest) st = (Success p1, st1) ->
  Coggia.transferFunds (B :: A :: n :: rest') st1 = (Success p2, st2) ->
  Coggia.balance_at st2 A = Coggia.balance_at st A
  /\ Coggia.balance_at st2 B = Coggia.balance_at st B.
Proof.
  intros Hne H1 H2.
  destruct (Coggia_transfer_balances _ _ _ _ _ _ _ Hne H1)
    as (F & T & HF & HT & HF1 & HT1).
  destruct (Coggia_transfer_balances _ _ _ _ _ _ _ (not_eq_sym Hne) H2)
    as (F' & T' & HF' & HT' & HF2 & HT2).
  rewrite HT1 in HF'. rewrite HF1 in HT'. simplify_eq.
  pose proof (Coggia_wallet_at_in_range _ _ _ HF) as RF.
  pose proof (Coggia_wallet_at_in_range _ _ _ HT) as RT.
  unfold Coggia.balance_at. rewrite HF, HT, HF2, HT2.
  cbn [option_map Coggia.Balance Coggia.Address].
  set (m := fst (Atoi n)).
  split; f_equal; unfold GoInt.add, GoInt.sub.
  - rewrite <- (wrap_id (Coggia.Balance F)) at 2 by exact RF.
    apply wrap_congr. rewrite Z.add_mod, wrap_mod, <- Z.add_mod by lia.
    f_equal. lia.
  - rewrite <- (wrap_id (Coggia.Balance T)) at 2 by exact RT.
    apply wrap_congr. rewrite Zminus_mod, wrap_mod, <- Zminus_mod.
    f_equal. lia.
Qed.

Lemma Coggia_transfer_there_and_back_witness :
  let st1 := snd (Coggia.transferFunds ["a"; "b"; "3"] Examples.pair) in
  let st2 := snd (Coggia.transferFunds ["b"; "a"; "3"] st1) in
  "a" <> "b"
  /\ Coggia.transferFunds ["a"; "b"; "3"] Examples.pair = (Success None, st1)
  /\ Coggia.transferFunds ["b"; "a"; "3"] st1 = (Success None, st2)
  /\ Coggia.balance_at st2 "a" = Coggia.balance_at Examples.pair "a"
  /\ Coggia.balance_at st2 "b" = Coggia.balance_at Examples.pair "b".
Proof.
  assert (Hne : "a" <> "b") by discriminate.
  assert (H1 : Coggia.transferFunds ["a"; "b"; "3"] Examples.pair
               = (Success None,
                  snd (Coggia.transferFunds ["a"; "b"; "3"] Examples.pair)))
    by (vm_compute; reflexivity).
  assert (H2 : Coggia.transferFunds ["b"; "a"; "3"]
                 (snd (Coggia.transferFunds ["a"; "b"; "3"] Examples.pair))
               = (Success None,
                  snd (Coggia.transferFunds ["b"; "a"; "3"]
                         (snd (Coggia.transferFunds ["a"; "b"; "3"] Examples.pair)))))
    by (vm_compute; reflexivity).
  split; [exact Hne |]. split; [exact H1 |]. split; [exact H2 |].
  exact (Coggia_transfer_there_and_back "a" "b" "3" [] [] _ _ _ None None
           Hne H1 H2).
Defined.



End CoggiaTransferMore.

Section RangeQueryMore.
Import Chars Strconv Shim.

(** The loop only calls [Next], at most once for each entry. *)
Lemma scan_loop_effect it : forall buffer written st,
  exists n,
    snd (Coggia.scan_loop it buffer written st)
    = mkStub (State st) (Log st ++ replicate n OpNext) (Fault st).
Proof.
  induction it as [| kv it IH]; intros buffer written st.
  - exists 0%nat. cbn [Coggia.scan_loop ret snd replicate]. rewrite app_nil_r.
    destruct st; reflexivity.
  - cbn [Coggia.scan_loop]. unfold bind at 1, Next at 1.
    destruct (Fault st (Log st) OpNext) as [e |].
    + exists 1%nat. reflexivity.
    + match goal with
      | |- context [Coggia.scan_loop it ?b ?w ?s] =>
          destruct (IH b w s) as [n Hn]
      end.
      exists (S n). rewrite Hn. cbn [State Log Fault record replicate].
      rewrite <- app_assoc. reflexivity.
Qed.

Lemma writes_replicate_Next n : writes (replicate n OpNext) = [].
Proof. induction n as [| n IH]; [reflexivity | exact IH]. Qed.

(** X11: [getWalletsByRange] only reads.  Whatever its arguments and
    whatever fails, it changes no record and attempts no write.  When the
    range query itself fails, that error is the answer and no iterator was
    opened; otherwise the iterator is closed before the handler returns,
    also when a call of [Next] fails. *)
Theorem getWalletsByRange_read_only args st :
  let r := Coggia.getWalletsByRange args st in
  State (snd r) = State st
  /\ writes (Log (snd r)) = writes (Log st)
  /\ (forall startKey endKey rest, args = startKey :: endKey :: rest ->
      match Fault st (Log st) (OpRange startKey endKey) with
      | Some e =>
          fst r = Error e /\ Log (snd r) = Log st ++ [OpRange startKey endKey]
      | None =>
          exists n,
            Log (snd r)
            = Log st ++ [OpRange startKey endKey] ++ replicate n OpNext ++ [OpClose]
      end).
Proof.
  intros r. subst r.
  destruct args as [| startKey [| endKey rest]];
    try (split; [reflexivity | split; [reflexivity |]];
         intros s e r' E; discriminate E).
  unfold Coggia.getWalletsByRange, bind, GetStateByRange.
  destruct (Fault st (Log st) (OpRange startKey endKey)) as [e |] eqn:Hf.
  - cbn [fst snd State Log record ret].
    split; [reflexivity |]. split; [apply writes_read_only; reflexivity |].
    intros s e' r' E. inversion E; subst. rewrite Hf. split; reflexivity.
  - destruct (scan_loop_effect (rangeScan (State st) startKey endKey) "[" false
                (record (OpRange startKey endKey) st)) as [n Hn].
    destruct (Coggia.scan_loop _ _ _ _) as [res st2]. cbn [snd] in Hn. subst st2.
    unfold Close, ret, record. cbn [State Log Fault].
    assert (HL : ((Log st ++ [OpRange startKey endKey]) ++ replicate n OpNext)
                   ++ [OpClose]
                 = Log st ++ [OpRange startKey endKey] ++ replicate n OpNext
                     ++ [OpClose])
      by (rewrite <- !app_assoc; reflexivity).
    destruct res; cbn [fst snd State Log]; rewrite HL;
      (split; [reflexivity |]);
      (split;
       [ apply writes_read_only; unfold writes;
         rewrite !List.filter_app; cbn [List.filter is_write app];
         fold (writes (replicate n OpNext)); rewrite writes_replicate_Next;
         reflexivity
       | intros k1 k2 r' E; inversion E; subst; rewrite Hf; exists n;
         reflexivity ]).
Qed.

End RangeQueryMore.

Section AddressInvariant.
Import Chars Strconv Shim.

Lemma keyed_same st st' : State st' = State st -> Coggia.keyed st -> Coggia.keyed st'.
Proof.
  intros E H k w. unfold Coggia.wallet_at. rewrite E. apply H.
Qed.

Lemma keyed_insert st st' k v :
  State st' = <[k := v]> (State st) ->
  (forall w, Coggia.json_Unmarshal v (Coggia.mkWallet EmptyString 0) = (w, None) ->
             Coggia.Address w = k) ->
  Coggia.keyed st -> Coggia.keyed st'.
Proof.
  intros E Hv H k' w. unfold Coggia.wallet_at. rewrite E.
  destruct (decide (k = k')) as [<- | Hne].
  - rewrite lookup_insert_eq.
    destruct (Coggia.json_Unmarshal v _) as [w' [e |]] eqn:Eu;
      intros Hw; inversion Hw; subst. apply Hv. reflexivity.
  - rewrite lookup_insert_ne by exact Hne. apply H.
Qed.

Lemma keyed_insert_wallet st st' w :
  State st' = <[Coggia.Address w := fst (Coggia.json_Marshal w)]> (State st) ->
  Utf8.ValidString (Coggia.Address w) = true ->
  GoInt.in_range (Coggia.Balance w) ->
  Coggia.keyed st -> Coggia.keyed st'.
Proof.
  intros E Hv Hr. apply (keyed_insert st st' _ _ E).
  intros w' Hw. rewrite Unmarshal_Marshal in Hw by assumption.
  inversion Hw. reflexivity.
Qed.

Lemma initWallet_keyed args st :
  Forall (fun a => Utf8.ValidString a = true) args ->
  Coggia.keyed st -> Coggia.keyed (snd (Coggia.initWallet args st)).
Proof.
  intros Hargs H. destruct args as [| a [| b [| c rest]]]; try exact H.
  apply Forall_cons in Hargs as [Hv _].
  destruct (decide (a = EmptyString)) as [-> | Hne]; [exact H |].
  rewrite (initWallet_cases a b st Hne). cbv zeta.
  set (data := fst (Coggia.json_Marshal (Coggia.mkWallet a (fst (Atoi b))))).
  set (st1 := record (OpPut a data) (with_state (<[a := data]> (State st)) st)).
  assert (H1 : Coggia.keyed st1).
  { apply (keyed_insert_wallet st st1 (Coggia.mkWallet a (fst (Atoi b))));
      [reflexivity | exact Hv | apply Atoi_in_range | exact H]. }
  destruct (Fault st (Log st) _); [exact H |].
  destruct (CreateCompositeKey _ _) as [k [err |]]; [exact H1 |].
  unfold PutState. destruct (Fault st1 _ _); cbn [snd]; [exact H1 |].
  eapply (keyed_insert st1 _ k (String NUL EmptyString)); [reflexivity | | exact H1].
  intros w Hw. discriminate Hw.
Qed.

Lemma transferFunds_keyed args st :
  Coggia.keyed st -> Coggia.keyed (snd (Coggia.transferFunds args st)).
Proof.
  intros H. destruct args as [| from [| to [| n rest]]]; try exact H.
  rewrite Coggia_transferFunds_cases. cbv zeta.
  destruct (Fault st (Log st) (OpGet from)); [exact H |].
  destruct (State st !! from) as [fb |] eqn:Efb; [| exact H].
  cbn [State Log Fault record with_state].
  destruct (Fault st (Log st ++ [OpGet from]) (OpGet to)); [exact H |].
  destruct (State st !! to) as [tb |] eqn:Etb; [| exact H].
  destruct (Coggia.json_Unmarshal fb _) as [F [eF |]] eqn:EF; [exact H |].
  destruct (Coggia.json_Unmarshal tb _) as [T [eT |]] eqn:ET; [exact H |].
  assert (HF : Coggia.Address F = from).
  { apply H. unfold Coggia.wallet_at. rewrite Efb, EF. reflexivity. }
  assert (HT : Coggia.Address T = to).
  { apply H. unfold Coggia.wallet_at. rewrite Etb, ET. reflexivity. }
  pose proof (proj1 (Coggia_decoded _ _ _ EF)) as VF.
  pose proof (proj1 (Coggia_decoded _ _ _ ET)) as VT.
  set (T' := Coggia.mkWallet (Coggia.Address T) _).
  set (F' := Coggia.mkWallet (Coggia.Address F) _).
  destruct (Fault st _ (OpPut to _)); [exact H |].
  cbn [State Log Fault record with_state].
  assert (H3 : Coggia.keyed
                 (record (OpPut to (fst (Coggia.json_Marshal T')))
                    (with_state (<[to := fst (Coggia.json_Marshal T')]> (State st))
                       (record (OpGet to) (record (OpGet from) st))))).
  { apply (keyed_insert_wallet st _ T');
      [subst T'; cbn [Coggia.Address State record with_state]; rewrite HT; reflexivity
      | exact VT | apply wrap_in_range | exact H]. }
  destruct (Fault st _ (OpPut from _)); cbn [snd]; [exact H3 |].
  eapply (keyed_insert_wallet _ _ F'); [| exact VF | apply wrap_in_range | exact H3].
  subst F'. cbn [Coggia.Address State record with_state]. rewrite HF. reflexivity.
Qed.

Lemma readWallet_state args st :
  State (snd (Coggia.readWallet args st)) = State st.
Proof.
  destruct args as [| a [| b rest]]; try reflexivity.
  unfold Coggia.readWallet, bind, ret, GetState.
  destruct (Fault st (Log st) (OpGet a)); [reflexivity |].
  destruct (State st !! a); reflexivity.
Qed.

Lemma getWalletsByRange_state args st :
  State (snd (Coggia.getWalletsByRange args st)) = State st.
Proof.
  destruct args as [| startKey [| endKey rest]]; try reflexivity.
  unfold Coggia.getWalletsByRange, bind, GetStateByRange.
  destruct (Fault st (Log st) (OpRange startKey endKey)); [reflexivity |].
  destruct (scan_loop_effect (rangeScan (State st) startKey endKey) "[" false
              (record (OpRange startKey endKey) st)) as [n Hn].
  destruct (Coggia.scan_loop _ _ _ _) as [res st2]. cbn [snd] in Hn. subst st2.
  destruct res; reflexivity.
Qed.

(** X12: an invariant of [coggia.go].  If every record that decodes to a
    wallet sits at the key equal to the wallet's address, the same holds
    after any invocation with well-formed UTF-8 arguments, whatever the
    operation name and the outcome: [initWallet] records a wallet under
    its own address (and an index entry that is no wallet), and a transfer
    writes each wallet back under the key it was read from.  (For an
    address that is not well-formed, [initWallet] leaves a record whose
    address is not its key: the encoder replaces the ill-formed bytes.) *)
Theorem Coggia_Invoke_keeps_addresses function args st :
  Forall (fun a => Utf8.ValidString a = true) args ->
  Coggia.keyed st -> Coggia.keyed (snd (Coggia.Invoke function args st)).
Proof.
  intros Hargs H. unfold Coggia.Invoke.
  destruct (String.eqb function "initWallet");
    [apply initWallet_keyed; assumption |].
  destruct (String.eqb function "transferFunds"); [apply transferFunds_keyed, H |].
  destruct (String.eqb function "readWallet").
  { eapply keyed_same; [apply readWallet_state | exact H]. }
  destruct (String.eqb function "getWalletsByRange").
  { eapply keyed_same; [apply getWalletsByRange_state | exact H]. }
  exact H.
Qed.

Lemma Coggia_Invoke_keeps_addresses_witness :
  let st := snd (Coggia.Invoke "initWallet" ["a"; "5"] (Ledger.reliable ∅)) in
  let st' := snd (Coggia.Invoke "transferFunds" ["a"; "a"; "2"] st) in
  Forall (fun a => Utf8.ValidString a = true) ["a"; "a"; "2"]
  /\ Coggia.keyed st
  /\ fst (Coggia.Invoke "transferFunds" ["a"; "a"; "2"] st) = Success None
  /\ Coggia.wallet_at st' "a" = Some (Coggia.mkWallet "a" 3)
  /\ Coggia.keyed st'.
Proof.
  cbv zeta.
  assert (H0 : Coggia.keyed (Ledger.reliable ∅)).
  { intros k w H. unfold Coggia.wallet_at in H. cbn [State Ledger.reliable] in H.
    rewrite lookup_empty in H. discriminate H. }
  assert (H2 : Forall (fun a => Utf8.ValidString a = true) ["a"; "a"; "2"])
    by (repeat constructor).
  assert (H1 : Forall (fun a => Utf8.ValidString a = true) ["a"; "5"])
    by (repeat constructor).
  pose proof (Coggia_Invoke_keeps_addresses "initWallet" ["a"; "5"] _ H1 H0)
    as K1.
  split; [exact H2 |]. split; [exact K1 |].
  split; [vm_compute; reflexivity |]. split; [vm_compute; reflexivity |].
  exact (Coggia_Invoke_keeps_addresses "transferFunds" ["a"; "a"; "2"] _ H2 K1).
Defined.

End AddressInvariant.

Section HalleyMore.
Import Chars Strconv Shim.

(** X13: after a successful [createWallet(id, balance, owner)], a
    [queryWallet(id)] whose read does not fail succeeds, and its payload is
    the envelope of [id] and the stored record, which is the empty object
    whatever balance and owner were given. *)
Theorem createWallet_then_queryWallet id b o st st' p rest :
  Halley.createWallet [id; b; o] st = (Success p, st') ->
  Fault st' (Log st') (OpGet id) = None ->
  fst (Halley.queryWallet (id :: rest) st')
  = Success (Some (Halley.envelope id Halley.empty_object)).
Proof.
  intros H Hget. apply createWallet_stores_empty_object in H as [H _].
  unfold Halley.queryWallet, bind, ret, GetState. rewrite Hget, H. reflexivity.
Qed.

Lemma createWallet_then_queryWallet_witness :
  let st' := snd (Halley.createWallet ["w1"; "100"; "alice"] (Ledger.reliable ∅)) in
  Halley.createWallet ["w1"; "100"; "alice"] (Ledger.reliable ∅) = (Success None, st')
  /\ Fault st' (Log st') (OpGet "w1") = None
  /\ fst (Halley.queryWallet ["w1"] st')
     = Success (Some (Halley.envelope "w1" Halley.empty_object)).
Proof.
  assert (H : Halley.createWallet ["w1"; "100"; "alice"] (Ledger.reliable ∅)
              = (Success None,
                 snd (Halley.createWallet ["w1"; "100"; "alice"] (Ledger.reliable ∅))))
    by (vm_compute; reflexivity).
  split; [exact H |]. split; [reflexivity |].
  exact (createWallet_then_queryWallet "w1" "100" "alice" _ _ None [] H eq_refl).
Defined.

(** X14: [deleteWallet] frees the id.  On a ledger without faults, a
    [createWallet] for an id that has just been deleted succeeds when its
    balance parses, whether or not a wallet was recorded there before. *)
Theorem deleteWallet_then_createWallet id rest b o st :
  fault_free st ->
  snd (Atoi b) = None ->
  fst (Halley.createWallet [id; b; o] (snd (Halley.deleteWallet (id :: rest) st)))
  = Success None.
Proof.
  intros Hff Hb. unfold Halley.deleteWallet, bind, ret, DelState.
  rewrite Hff. cbn [snd]. unfold Halley.createWallet.
  destruct (Atoi b) as [balance e]. cbn [snd] in Hb. subst e.
  unfold bind, ret, GetState, PutState.
  cbn [State Log Fault record with_state]. rewrite Hff, lookup_delete_eq.
  rewrite Halley_Marshal_empty. cbn [State Log Fault record with_state].
  rewrite Hff. reflexivity.
Qed.

Lemma deleteWallet_then_createWallet_witness :
  fault_free Examples.halley_two
  /\ snd (Atoi "9") = None
  /\ fst (Halley.createWallet ["w2"; "9"; "carol"]
            (snd (Halley.deleteWallet ["w2"] Examples.halley_two)))
     = Success None.
Proof.
  assert (Hff : fault_free Examples.halley_two) by (intros l o; reflexivity).
  split; [exact Hff |]. split; [reflexivity |].
  exact (deleteWallet_then_createWallet "w2" [] "9" "carol" Examples.halley_two
           Hff eq_refl).
Defined.


Lemma Halley_transfer_state args st :
  State (snd (Halley.transferFunds args st)) = State st
  \/ State (snd (Halley.transferFunds args st))
     = <[EmptyString := Halley.empty_object]> (State st).
Proof.
  destruct args as [| A [| B [| n rest]]]; try (left; reflexivity).
  unfold Halley.transferFunds, bind, ret, GetState, PutState.
  fold Halley.zero_wallet.
  pose proof Halley_Unmarshal_unchanged as HU.
  pose proof Halley_Marshal_empty as HM.
  set (marshal := Halley.json_Marshal) in *. clearbody marshal.
  set (unmarshal := Halley.json_Unmarshal) in *. clearbody unmarshal.
  repeat (case_match; simplify_eq;
          cbn [fst snd State Log Fault record with_state] in * );
    try (left; reflexivity);
    repeat match goal with
           | E : unmarshal ?d ?w = (?w', _) |- _ =>
               is_var w';
               assert (w' = w) by (rewrite <- (HU d w), E; reflexivity);
               subst w'
           | E : marshal ?w = _ |- _ => rewrite HM in E; simplify_eq
           end;
    cbn [Halley.id Halley.zero_wallet];
    right; rewrite ?insert_insert_eq; reflexivity.
Qed.

Lemma blank_insert st st' k :
  State st' = <[k := Halley.empty_object]> (State st) ->
  Halley.blank st -> Halley.blank st'.
Proof.
  intros E H k' v. rewrite E. destruct (decide (k = k')) as [<- | Hne].
  - rewrite lookup_insert_eq. intros Hv. inversion Hv. reflexivity.
  - rewrite lookup_insert_ne by exact Hne. apply H.
Qed.

Lemma blank_same st st' : State st' = State st -> Halley.blank st -> Halley.blank st'.
Proof. intros E H k v. rewrite E. apply H. Qed.

(** X16: an invariant of the Halley contract.  If every record in the
    ledger is the empty object, the same holds after any invocation,
    whatever the operation name, the arguments and the outcome: the two
    handlers that write, [createWallet] and [transferFunds], only ever
    write the empty object, and [deleteWallet] only removes. *)
Theorem Halley_Invoke_keeps_blank function args st :
  Halley.blank st -> Halley.blank (snd (Halley.Invoke function args st)).
Proof.
  intros H. unfold Halley.Invoke.
  destruct (String.eqb function "transferFunds").
  { destruct (Halley_transfer_state args st) as [E | E];
      [eapply blank_same | eapply blank_insert]; eauto. }
  destruct (String.eqb function "createWallet").
  { destruct args as [| id [| b [| o [| x rest]]]]; try exact H.
    unfold Halley.createWallet, bind, ret, GetState, PutState.
    destruct (Atoi b) as [balance [e |]]; [exact H |].
    rewrite Halley_Marshal_empty.
    destruct (Fault st (Log st) (OpGet id)); [exact H |].
    destruct (State st !! id); [exact H |].
    cbn [State Log Fault record with_state].
    destruct (Fault st _ (OpPut id _)); cbn [snd]; [exact H |].
    eapply blank_insert; [| exact H]. reflexivity. }
  destruct (String.eqb function "queryWallet").
  { eapply blank_same; [| exact H].
    destruct args as [| id rest]; [reflexivity |].
    unfold Halley.queryWallet, bind, ret, GetState.
    destruct (Fault st (Log st) (OpGet id)); [reflexivity |].
    destruct (State st !! id); reflexivity. }
  destruct (String.eqb function "deleteWallet").
  { destruct args as [| id rest]; [exact H |].
    unfold Halley.deleteWallet, bind, ret, DelState.
    destruct (Fault st (Log st) (OpDel id)); cbn [snd]; [exact H |].
    intros k v. cbn [State record with_state].
    destruct (decide (id = k)) as [<- | Hne].
    - rewrite lookup_delete_eq. intros Hv. discriminate Hv.
    - rewrite lookup_delete_ne by exact Hne. apply H. }
  exact H.
Qed.

Lemma Halley_Invoke_keeps_blank_witness :
  Halley.blank (Ledger.reliable ∅)
  /\ Halley.blank
       (snd (Halley.Invoke "createWallet" ["w1"; "100"; "alice"]
               (Ledger.reliable ∅))).
Proof.
  assert (H0 : Halley.blank (Ledger.reliable ∅)).
  { intros k v H. cbn [State Ledger.reliable] in H.
    rewrite lookup_empty in H. discriminate H. }
  split; [exact H0 |].
  exact (Halley_Invoke_keeps_blank "createWallet" ["w1"; "100"; "alice"] _ H0).
Defined.

End HalleyMore.

Section ArgumentChecks.
Import Chars Strconv Shim Ledger.

(** X17: arguments are checked before the ledger is touched.  In either
    contract, an invocation with the wrong number of arguments for its
    operation ([initWallet] not two, [readWallet] not one,
    [getWalletsByRange] fewer than two, [transferFunds] fewer than three,
    [createWallet] not three, [queryWallet] or [deleteWallet] none), an
    [initWallet] with an empty address, or a [createWallet] whose balance
    does not parse, is answered with an error and leaves the stub as it
    was: no call to the ledger is made. *)
Theorem invalid_arguments_rejected_first c function args st :
  (function = "initWallet"
   /\ (length args <> 2%nat \/ exists b, args = [EmptyString; b]))
  \/ (function = "readWallet" /\ length args <> 1%nat)
  \/ (function = "getWalletsByRange" /\ (length args < 2)%nat)
  \/ (function = "transferFunds" /\ (length args < 3)%nat)
  \/ (function = "createWallet"
      /\ (length args <> 3%nat
          \/ exists id b o, args = [id; b; o] /\ snd (Atoi b) <> None))
  \/ ((function = "queryWallet" \/ function = "deleteWallet") /\ args = []) ->
  exists msg, Invoke c function args st = (Error msg, st).
Proof.
  intros H.
  repeat match goal with
         | H : _ \/ _ |- _ => destruct H as [H | H]
         | H : _ /\ _ |- _ => destruct H as [? H]
         | H : exists _, _ |- _ => destruct H as [? H]
         end; subst;
    destruct c; cbn [Invoke];
    unfold Coggia.Invoke, Halley.Invoke; cbn [String.eqb Ascii.eqb Bool.eqb];
    try (eexists; reflexivity);
    try (destruct args as [| a0 [| a1 [| a2 [| a3 rest]]]];
         cbn [length] in *; try lia; try congruence; eexists; reflexivity).
  unfold Halley.createWallet.
  match goal with
  | Hb : snd (Atoi ?b) <> None |- _ =>
      destruct (Atoi b) as [v [e |]]; [| cbn [snd] in Hb; congruence]
  end.
  eexists; reflexivity.
Qed.

Lemma invalid_arguments_rejected_first_witness :
  (length ["w1"] <> 3%nat)
  /\ exists msg,
       Invoke SmartContract "createWallet" ["w1"] Examples.halley_one
       = (Error msg, Examples.halley_one).
Proof.
  assert (H : length ["w1"] <> 3%nat) by (cbn; lia).
  split; [exact H |].
  apply (invalid_arguments_rejected_first SmartContract "createWallet" ["w1"]).
  right. right. right. right. left. split; [reflexivity | left; exact H].
Defined.

End ArgumentChecks.

Section MoreWitnesses.
Import Chars Strconv Shim Ledger.

Lemma Coggia_transfer_not_found_witness :
  let st := Examples.pair in
  (State st !! "a" = None \/ State st !! "nobody" = None)
  /\ fst (Coggia.transferFunds ["a"; "nobody"; "3"] st)
     = Error "Wallet 1 doesn't exist"
  /\ State (snd (Coggia.transferFunds ["a"; "nobody"; "3"] st)) = State st.
Proof.
  assert (Hm : State Examples.pair !! "a" = None
               \/ State Examples.pair !! "nobody" = None)
    by (right; vm_compute; reflexivity).
  split; [exact Hm |].
  exact (Coggia_transfer_not_found "a" "nobody" "3" [] Examples.pair
           eq_refl eq_refl Hm).
Defined.

Lemma Coggia_transfer_frame_witness :
  let st' := snd (Coggia.transferFunds ["a"; "b"; "3"] Examples.pair) in
  Coggia.transferFunds ["a"; "b"; "3"] Examples.pair = (Success None, st')
  /\ (forall k, k <> "a" -> k <> "b" -> State st' !! k = State Examples.pair !! k)
  /\ identity_at SimpleChaincode st' "a" = identity_at SimpleChaincode Examples.pair "a"
  /\ identity_at SimpleChaincode st' "b" = identity_at SimpleChaincode Examples.pair "b".
Proof.
  assert (H : Coggia.transferFunds ["a"; "b"; "3"] Examples.pair
              = (Success None,
                 snd (Coggia.transferFunds ["a"; "b"; "3"] Examples.pair)))
    by (vm_compute; reflexivity).
  split; [exact H |].
  exact (Coggia_transfer_frame "a" "b" "3" [] Examples.pair _ None H).
Defined.

Lemma initWallet_index_fault_ignored_witness :
  let st := Examples.index_down in
  let key := fst (CreateCompositeKey "address~balance" ["a"; "1"]) in
  "a" <> EmptyString
  /\ fst (Coggia.initWallet ["a"; "1"] st) = Success None
  /\ State (snd (Coggia.initWallet ["a"; "1"] st)) !! key = State st !! key.
Proof.
  assert (Ha : "a" <> EmptyString) by discriminate.
  split; [exact Ha |].
  exact (initWallet_index_fault_ignored "a" "1" Examples.index_down
           (fst (CreateCompositeKey "address~balance" ["a"; "1"]))
           "ledger unavailable" Ha eq_refl eq_refl eq_refl).
Defined.

Lemma Halley_transfer_never_updates_witness :
  "w1" <> EmptyString
  /\ State (snd (Halley.transferFunds ["w1"; "w2"; "3"] Examples.halley_two)) !! "w1"
     = State Examples.halley_two !! "w1".
Proof.
  assert (Hk : "w1" <> EmptyString) by discriminate.
  split; [exact Hk |].
  exact (Halley_transfer_never_updates ["w1"; "w2"; "3"] Examples.halley_two
           "w1" Hk).
Defined.

Lemma Halley_transfer_strict_stub_witness :
  let st := Examples.strict_two in
  let r := Halley.transferFunds ["w1"; "w2"; "3"] st in
  (forall log value, Fault st log (OpPut EmptyString value) <> None)
  /\ Halley.wallet_at st "w1" = Some Halley.zero_wallet
  /\ Halley.wallet_at st "w2" = Some Halley.zero_wallet
  /\ Log (snd r)
     = [OpGet "w1"; OpGet "w2"; OpPut EmptyString Halley.empty_object]
  /\ fst r = Error ("Error saving the state of wallet [F]"
                    +:+ "key must not be an empty string")
  /\ forall p, fst r <> Success p.
Proof.
  cbv zeta.
  assert (Hs : forall log value,
             Fault Examples.strict_two log (OpPut EmptyString value) <> None)
    by (intros log value H; discriminate H).
  split; [exact Hs |].
  split; [vm_compute; reflexivity |]. split; [vm_compute; reflexivity |].
  split; [vm_compute; reflexivity |]. split; [vm_compute; reflexivity |].
  exact (Halley_transfer_strict_stub ["w1"; "w2"; "3"] Examples.strict_two Hs).
Defined.

Lemma Halley_transfer_to_not_found_witness :
  let st := Examples.halley_one in
  State st !! "w1" = Some Halley.empty_object
  /\ State st !! "nobody" = None
  /\ fst (Halley.transferFunds ["w1"; "nobody"; "3"] st)
     = Error "Failed to unmarshal wallet"
  /\ State (snd (Halley.transferFunds ["w1"; "nobody"; "3"] st)) = State st.
Proof.
  assert (HA : State Examples.halley_one !! "w1" = Some Halley.empty_object)
    by (vm_compute; reflexivity).
  assert (HB : State Examples.halley_one !! "nobody" = None)
    by (vm_compute; reflexivity).
  split; [exact HA |]. split; [exact HB |].
  exact (Halley_transfer_to_not_found "w1" "nobody" "3" [] Examples.halley_one
           Halley.empty_object eq_refl eq_refl HA HB).
Defined.

Lemma Halley_wallet_at_zero_witness :
  Halley.wallet_at Examples.halley_one "w1" = Some Halley.zero_wallet
  /\ Halley.zero_wallet = Halley.zero_wallet.
Proof.
  assert (H : Halley.wallet_at Examples.halley_one "w1" = Some Halley.zero_wallet)
    by (vm_compute; reflexivity).
  split; [exact H |].
  exact (Halley_wallet_at_zero Examples.halley_one "w1" Halley.zero_wallet H).
Defined.

Lemma createWallet_put_fault_witness :
  let st := Examples.write_protected in
  snd (Atoi "100") = None
  /\ State st !! "w1" = None
  /\ fst (Halley.createWallet ["w1"; "100"; "alice"] st)
     = Error "Failed to save the wallet".
Proof.
  assert (Hn : State Examples.write_protected !! "w1" = None)
    by (vm_compute; reflexivity).
  split; [reflexivity |]. split; [exact Hn |].
  exact (createWallet_put_fault "w1" "100" "alice" Examples.write_protected
           "ledger is read-only" eq_refl eq_refl Hn eq_refl).
Defined.

Lemma initWallet_primary_fault_witness :
  "a" <> EmptyString
  /\ fst (Coggia.initWallet ["a"; "1"] Examples.write_protected)
     = Error "ledger is read-only".
Proof.
  assert (Ha : "a" <> EmptyString) by discriminate.
  split; [exact Ha |].
  exact (initWallet_primary_fault "a" "1" Examples.write_protected
           "ledger is read-only" Ha eq_refl).
Defined.

End MoreWitnesses.

Section SuccessConditions.
Import Chars Strconv Shim.



(** X29: deleting twice is deleting once.  On a ledger without faults a
    second [deleteWallet] of the same id succeeds like the first and leaves
    the records as the first left them. *)
Theorem deleteWallet_twice id rest rest' st :
  fault_free st ->
  let st1 := snd (Halley.deleteWallet (id :: rest) st) in
  fst (Halley.deleteWallet (id :: rest) st) = Success None
  /\ fst (Halley.deleteWallet (id :: rest') st1) = Success None
  /\ State (snd (Halley.deleteWallet (id :: rest') st1)) = State st1.
Proof.
  intros Hff st1. subst st1.
  unfold Halley.deleteWallet, bind, ret, DelState. rewrite Hff.
  cbn [fst snd State Log Fault record with_state]. rewrite Hff.
  cbn [fst snd State Log Fault record with_state].
  split; [reflexivity |]. split; [reflexivity |].
  apply delete_id. apply lookup_delete_eq.
Qed.

Lemma deleteWallet_twice_witness :
  fault_free Examples.halley_two
  /\ fst (Halley.deleteWallet ["w2"] Examples.halley_two) = Success None
  /\ fst (Halley.deleteWallet ["w2"]
            (snd (Halley.deleteWallet ["w2"] Examples.halley_two)))
     = Success None
  /\ State (snd (Halley.deleteWallet ["w2"]
                   (snd (Halley.deleteWallet ["w2"] Examples.halley_two))))
     = State (snd (Halley.deleteWallet ["w2"] Examples.halley_two)).
Proof.
  assert (Hff : fault_free Examples.halley_two) by (intros l o; reflexivity).
  split; [exact Hff |].
  exact (deleteWallet_twice "w2" [] [] Examples.halley_two Hff).
Defined.

(** X30: a wallet created by [initWallet] is found by a range query.  On a
    ledger without faults, after a successful [initWallet(address, ...)]
    the answer of [getWalletsByRange(startKey, endKey)] is the array of
    some entries among which, when the address is not below [startKey] and
    is below [endKey], there is the address with the record written. *)
Theorem initWallet_then_range a b st st' p startKey endKey rest :
  fault_free st ->
  Coggia.initWallet [a; b] st = (Success p, st') ->
  String.leb startKey a = true ->
  String.ltb a endKey = true ->
  exists entries,
    fst (Coggia.getWalletsByRange (startKey :: endKey :: rest) st')
    = Success (Some (Coggia.array entries))
    /\ (a, fst (Coggia.json_Marshal (Coggia.mkWallet a (fst (Atoi b)))))
       ∈ entries.
Proof.
  intros Hff H Hlo Hhi.
  assert (Hff' : fault_free st').
  { pose proof (initWallet_success_nonempty _ _ _ _ _ H) as Ha.
    rewrite (initWallet_cases a b st Ha) in H. cbv zeta in H.
    destruct (Fault st (Log st) _); [discriminate H |].
    destruct (CreateCompositeKey _ _) as [k [err |]]; [discriminate H |].
    unfold PutState in H. cbn [State Log Fault record with_state] in H.
    destruct (Fault st _ _); inversion H; subst; intros l o; apply Hff. }
  apply initWallet_success_record in H.
  exists (rangeScan (State st') startKey endKey). split.
  - unfold Coggia.getWalletsByRange, bind at 1, GetStateByRange.
    rewrite Hff'. unfold bind at 1.
    rewrite scan_loop_ok by (intros l o; apply Hff').
    unfold bind, Close, ret. cbn [fst]. unfold Coggia.array.
    destruct (rangeScan (State st') startKey endKey);
      cbn [String.append map Json.join_comma]; reflexivity.
  - apply rangeScan_elem. split; [exact H |]. unfold in_range.
    rewrite Hlo, Hhi. apply orb_true_r.
Qed.

Lemma initWallet_then_range_witness :
  let st' := snd (Coggia.initWallet ["b"; "7"] (Ledger.reliable ∅)) in
  fault_free (Ledger.reliable ∅)
  /\ Coggia.initWallet ["b"; "7"] (Ledger.reliable ∅) = (Success None, st')
  /\ exists entries,
       fst (Coggia.getWalletsByRange ["a"; "c"] st')
       = Success (Some (Coggia.array entries))
       /\ ("b", fst (Coggia.json_Marshal (Coggia.mkWallet "b" (fst (Atoi "7")))))
          ∈ entries.
Proof.
  assert (Hff : fault_free (Ledger.reliable ∅)) by (intros l o; reflexivity).
  assert (H : Coggia.initWallet ["b"; "7"] (Ledger.reliable ∅)
              = (Success None,
                 snd (Coggia.initWallet ["b"; "7"] (Ledger.reliable ∅))))
    by (vm_compute; reflexivity).
  split; [exact Hff |]. split; [exact H |].
  exact (initWallet_then_range "b" "7" _ _ None "a" "c" [] Hff H eq_refl eq_refl).
Defined.

End SuccessConditions.
